(** * AnimateBy: the enter/leave scheduler of [animate-by.directive.ts]

    A shallow embedding of the [AnimateByDirective] class and of the part of
    its host (view container, frame queue of the window, change detector) that
    the directive talks to, followed by the properties of the scheduler.

    Layout:
    - [JsNumber]: the numbers of the directive (clock, durations, existence);
    - the data model ([AnimateByContext], the directive's fields, the host);
    - the methods, in the order of the source;
    - executions (sequences of host events);
    - [Binary64] and [Double]: the arithmetic of a frame in double precision;
    - invariants and the theorems. *)

From Stdlib Require Import QArith Lqa Lia ZArith List Bool.
From Stdlib Require SpecFloat.
From stdpp Require Import base decidable option list gmap.

Set Default Proof Using "Type".

(** ** Numbers

    The directive computes with JavaScript numbers.  Finite values are
    modelled by exact rationals (rounding and overflow to an infinity are not
    modelled, and the two zeros are not distinguished: the zero of the model
    is [+0]); the three special values are kept, with the IEEE-754 rules for
    them, because a quotient by a duration of [0] produces them. *)
Module JsNumber.

Inductive num : Type :=
  | Fin (q : Q)
  | PInf
  | NInf
  | NaN.

(** Sign of a rational as a comparison with [0]. *)
Definition qsign (q : Q) : comparison := (0 ?= q)%Q.

(** [a - b] *)
Definition sub (a b : num) : num :=
  match a, b with
  | NaN, _ | _, NaN => NaN
  | Fin x, Fin y => Fin (x - y)
  | Fin _, PInf => NInf
  | Fin _, NInf => PInf
  | PInf, PInf => NaN
  | PInf, _ => PInf
  | NInf, NInf => NaN
  | NInf, _ => NInf
  end.

(** An infinity of the sign of [c] ([Lt]: positive), [NaN] for a zero. *)
Definition inf_of_sign (c : comparison) : num :=
  match c with
  | Lt => PInf
  | Gt => NInf
  | Eq => NaN
  end.

Definition flip (c : comparison) : comparison := CompOpp c.

(** [a * b] *)
Definition mul (a b : num) : num :=
  match a, b with
  | NaN, _ | _, NaN => NaN
  | Fin x, Fin y => Fin (x * y)
  | Fin x, PInf | PInf, Fin x => inf_of_sign (qsign x)
  | Fin x, NInf | NInf, Fin x => inf_of_sign (flip (qsign x))
  | PInf, PInf | NInf, NInf => PInf
  | PInf, NInf | NInf, PInf => NInf
  end.

(** [a / b].  A finite non-zero numerator over zero is an infinity of the
    numerator's sign, [0 / 0] is [NaN], a finite numerator over an infinity
    is zero. *)
Definition div (a b : num) : num :=
  match a, b with
  | NaN, _ | _, NaN => NaN
  | Fin x, Fin y =>
      if Qeq_bool y 0 then inf_of_sign (qsign x) else Fin (x / y)
  | Fin _, (PInf | NInf) => Fin 0
  | PInf, Fin y => if Qle_bool 0 y then PInf else NInf
  | NInf, Fin y => if Qle_bool 0 y then NInf else PInf
  | (PInf | NInf), (PInf | NInf) => NaN
  end.

(** [Math.min(a, b)]: [NaN] as soon as one argument is. *)
Definition min (a b : num) : num :=
  match a, b with
  | NaN, _ | _, NaN => NaN
  | NInf, _ | _, NInf => NInf
  | PInf, x | x, PInf => x
  | Fin x, Fin y => if Qle_bool x y then Fin x else Fin y
  end.

(** [a <= b]: false as soon as one argument is [NaN]. *)
Definition le (a b : num) : bool :=
  match a, b with
  | NaN, _ | _, NaN => false
  | NInf, _ | _, PInf => true
  | PInf, _ | _, NInf => false
  | Fin x, Fin y => Qle_bool x y
  end.

(** [a >= b] *)
Definition ge (a b : num) : bool := le b a.

(** Numeric value of a possibly [undefined] operand: [undefined] converts to
    [NaN]. *)
Definition of_undefined (o : option num) : num :=
  match o with
  | Some x => x
  | None => NaN
  end.

(** Equality of numbers up to the representation of the rational. *)
Definition eq (a b : num) : Prop :=
  match a, b with
  | Fin x, Fin y => (x == y)%Q
  | PInf, PInf | NInf, NInf | NaN, NaN => True
  | _, _ => False
  end.

(** A finite number. *)
Definition finite (a : num) : Prop :=
  match a with
  | Fin _ => True
  | _ => False
  end.

(** A finite number of the closed interval from [lo] to [hi]. *)
Definition between (lo hi : Q) (a : num) : Prop :=
  match a with
  | Fin x => (lo <= x /\ x <= hi)%Q
  | _ => False
  end.

(** A finite, strictly positive number. *)
Definition positive (a : num) : Prop :=
  match a with
  | Fin x => (0 < x)%Q
  | _ => False
  end.

(** [a <= b] on finite numbers, as a proposition. *)
Definition fle (a b : num) : Prop :=
  match a, b with
  | Fin x, Fin y => (x <= y)%Q
  | _, _ => False
  end.

(** [a < b] on finite numbers, as a proposition. *)
Definition flt (a b : num) : Prop :=
  match a, b with
  | Fin x, Fin y => (x < y)%Q
  | _, _ => False
  end.

End JsNumber.

Abbreviation num := JsNumber.num.
Abbreviation Fin := JsNumber.Fin.
Abbreviation PInf := JsNumber.PInf.
Abbreviation NInf := JsNumber.NInf.
Abbreviation NaN := JsNumber.NaN.

Declare Scope js_scope.
Delimit Scope js_scope with js.
Bind Scope js_scope with JsNumber.num.
Infix "-" := JsNumber.sub : js_scope.
Infix "*" := JsNumber.mul : js_scope.
Infix "/" := JsNumber.div : js_scope.
Infix "<=?" := JsNumber.le : js_scope.
Infix ">=?" := JsNumber.ge : js_scope.
Infix "=="  := JsNumber.eq (at level 70, no associativity) : js_scope.

#[global] Arguments JsNumber.sub : simpl never.
#[global] Arguments JsNumber.mul : simpl never.
#[global] Arguments JsNumber.div : simpl never.
#[global] Arguments JsNumber.min : simpl never.
#[global] Arguments JsNumber.le : simpl never.
#[global] Arguments JsNumber.ge : simpl never.

(** ** Data model *)

(** The input object of the directive.  The directive only ever compares
    inputs with [!==], so an input is modelled by a token of its identity;
    [undefined] is [None] of [option value]. *)
Abbreviation value := nat.

(** Address of a stack entry object: entries are compared with [===] and
    searched with [indexOf], both by identity. *)
Abbreviation ref := nat.

(** ['entering' | 'leaving' | 'here' | 'reverse'] *)
Inductive State : Type :=
  | entering
  | leaving
  | here
  | reverse.

#[global] Instance State_eq_dec : EqDecision State.
Proof. solve_decision. Defined.

Record AnimateByTimings : Type := mkTimings {
  enter : num;
  leave : num
}.

Definition theDefaultAnimateByTimings : AnimateByTimings :=
  {| enter := Fin 1000; leave := Fin 1000 |}.

Definition defaultAnimateByTimings : AnimateByTimings :=
  theDefaultAnimateByTimings.

Module AnimateByOptions.

Record t : Type := mk {
  symmetric : bool;                        (* absent counts as false *)
  timings : option AnimateByTimings        (* [None]: not provided *)
}.

End AnimateByOptions.

Record AnimateByContext : Type := mkContext {
  implicit : value;                        (* [$implicit] *)
  state : State;
  existence : num;
  timings : AnimateByTimings;
  startTime : option num                   (* [None]: undefined *)
}.

(** The constructor of [AnimateByContext]: the timings are copied, the
    existence follows from the state, [startTime] is left undefined. *)
Definition newAnimateByContext (v : value) (st : State)
    (tm : AnimateByTimings) : AnimateByContext :=
  {| implicit := v;
     state := st;
     existence := match st with here => Fin 1 | _ => Fin 0 end;
     timings := {| enter := enter tm; leave := leave tm |};
     startTime := None |}.

Definition set_state (st : State) (c : AnimateByContext) : AnimateByContext :=
  {| implicit := implicit c; state := st; existence := existence c;
     timings := timings c; startTime := startTime c |}.

Definition set_existence (e : num) (c : AnimateByContext) : AnimateByContext :=
  {| implicit := implicit c; state := state c; existence := e;
     timings := timings c; startTime := startTime c |}.

Definition set_startTime (t : option num) (c : AnimateByContext)
    : AnimateByContext :=
  {| implicit := implicit c; state := state c; existence := existence c;
     timings := timings c; startTime := t |}.

(** The directive together with the objects it shares with its host.

    A stack entry [{context, view}] is an object; the stack and [current]
    hold references to it, so an entry is an address of [heap], which maps
    it to the entry's context.  The view created for an entry is named by
    the address of the entry. *)
Record Directive : Type := mkDirective {
  (* fields of the class *)
  animateByOptions : AnimateByOptions.t;
  stack : list ref;
  current : option ref;
  window : bool;                           (* [false]: undefined *)
  animId : option nat;
  inited : bool;
  (* the store of entry objects *)
  heap : gmap ref AnimateByContext;
  nextRef : ref;
  (* the host *)
  viewContainer : list ref;                (* embedded views, in order *)
  destroyedViews : list ref;               (* views torn down, oldest first *)
  frameQueue : list nat;                   (* outstanding frame requests *)
  lastFrameId : nat;                       (* last handle the window issued *)
  markedForCheck : nat                     (* calls of [cd.markForCheck] *)
}.

Definition set_animateByOptions (o : AnimateByOptions.t) (d : Directive) :=
  mkDirective o (stack d) (current d) (window d) (animId d) (inited d)
    (heap d) (nextRef d) (viewContainer d) (destroyedViews d) (frameQueue d)
    (lastFrameId d) (markedForCheck d).

Definition set_stack (s : list ref) (d : Directive) :=
  mkDirective (animateByOptions d) s (current d) (window d) (animId d)
    (inited d) (heap d) (nextRef d) (viewContainer d) (destroyedViews d)
    (frameQueue d) (lastFrameId d) (markedForCheck d).

Definition set_current (c : option ref) (d : Directive) :=
  mkDirective (animateByOptions d) (stack d) c (window d) (animId d)
    (inited d) (heap d) (nextRef d) (viewContainer d) (destroyedViews d)
    (frameQueue d) (lastFrameId d) (markedForCheck d).

Definition set_window (w : bool) (d : Directive) :=
  mkDirective (animateByOptions d) (stack d) (current d) w (animId d)
    (inited d) (heap d) (nextRef d) (viewContainer d) (destroyedViews d)
    (frameQueue d) (lastFrameId d) (markedForCheck d).

Definition set_animId (a : option nat) (d : Directive) :=
  mkDirective (animateByOptions d) (stack d) (current d) (window d) a
    (inited d) (heap d) (nextRef d) (viewContainer d) (destroyedViews d)
    (frameQueue d) (lastFrameId d) (markedForCheck d).

Definition set_inited (i : bool) (d : Directive) :=
  mkDirective (animateByOptions d) (stack d) (current d) (window d) (animId d)
    i (heap d) (nextRef d) (viewContainer d) (destroyedViews d)
    (frameQueue d) (lastFrameId d) (markedForCheck d).

Definition set_heap (h : gmap ref AnimateByContext) (d : Directive) :=
  mkDirective (animateByOptions d) (stack d) (current d) (window d) (animId d)
    (inited d) h (nextRef d) (viewContainer d) (destroyedViews d)
    (frameQueue d) (lastFrameId d) (markedForCheck d).

Definition set_nextRef (n : ref) (d : Directive) :=
  mkDirective (animateByOptions d) (stack d) (current d) (window d) (animId d)
    (inited d) (heap d) n (viewContainer d) (destroyedViews d)
    (frameQueue d) (lastFrameId d) (markedForCheck d).

Definition set_viewContainer (v : list ref) (d : Directive) :=
  mkDirective (animateByOptions d) (stack d) (current d) (window d) (animId d)
    (inited d) (heap d) (nextRef d) v (destroyedViews d)
    (frameQueue d) (lastFrameId d) (markedForCheck d).

Definition set_destroyedViews (v : list ref) (d : Directive) :=
  mkDirective (animateByOptions d) (stack d) (current d) (window d) (animId d)
    (inited d) (heap d) (nextRef d) (viewContainer d) v
    (frameQueue d) (lastFrameId d) (markedForCheck d).

Definition set_frameQueue (q : list nat) (d : Directive) :=
  mkDirective (animateByOptions d) (stack d) (current d) (window d) (animId d)
    (inited d) (heap d) (nextRef d) (viewContainer d) (destroyedViews d)
    q (lastFrameId d) (markedForCheck d).

Definition set_lastFrameId (n : nat) (d : Directive) :=
  mkDirective (animateByOptions d) (stack d) (current d) (window d) (animId d)
    (inited d) (heap d) (nextRef d) (viewContainer d) (destroyedViews d)
    (frameQueue d) n (markedForCheck d).

Definition set_markedForCheck (n : nat) (d : Directive) :=
  mkDirective (animateByOptions d) (stack d) (current d) (window d) (animId d)
    (inited d) (heap d) (nextRef d) (viewContainer d) (destroyedViews d)
    (frameQueue d) (lastFrameId d) n.

(** The directive as its field initialisers and constructor leave it, in a
    host with an empty view container and no frame requested. *)
Definition newDirective : Directive :=
  {| animateByOptions :=
       AnimateByOptions.mk false (Some defaultAnimateByTimings);
     stack := [];
     current := None;
     window := false;
     animId := None;
     inited := false;
     heap := ∅;
     nextRef := 0;
     viewContainer := [];
     destroyedViews := [];
     frameQueue := [];
     lastFrameId := 0;
     markedForCheck := 0 |}.

(** ** Arrays *)

(** [Array.prototype.indexOf]: the first index holding [x], [-1] if none. *)
Fixpoint indexOf (x : ref) (l : list ref) : Z :=
  match l with
  | [] => (-1)%Z
  | y :: l' =>
      if decide (y = x) then 0%Z
      else let i := indexOf x l' in
           if (i <? 0)%Z then (-1)%Z else (i + 1)%Z
  end.

(** Removal of the element at index [n], nothing when out of range. *)
Fixpoint removeAt {A : Type} (n : nat) (l : list A) : list A :=
  match l, n with
  | [], _ => []
  | _ :: l', O => l'
  | a :: l', S n' => a :: removeAt n' l'
  end.

(** The start index of [splice]: a negative index counts from the end and
    is clamped at [0]. *)
Definition spliceStart {A : Type} (index : Z) (l : list A) : nat :=
  if (index <? 0)%Z then Z.to_nat (Z.max (Z.of_nat (length l) + index) 0)
  else Z.to_nat index.

(** [l.splice(index, 1)], as the array it leaves. *)
Definition spliceOne {A : Type} (index : Z) (l : list A) : list A :=
  removeAt (spliceStart index l) l.

(** The element [splice(index, 1)] removes, if any. *)
Definition splicedOut {A : Type} (index : Z) (l : list A) : list A :=
  match l !! spliceStart index l with
  | Some a => [a]
  | None => []
  end.

(** ** The methods of the directive *)

(** The [ElementRef] handed to the constructor, as far as [ngOnInit] looks at
    it: whether the native element has an owner document, and whether that
    document gives a window ([doc.parentWindow || doc.defaultView]). *)
Inductive ElementRef : Type :=
  | NoDocument
  | Document (hasWindow : bool).

(** [ngOnInit] (the console warning about the old [timings] attribute
    changes nothing in the directive and is left out). *)
Definition ngOnInit (el : ElementRef) (d : Directive) : Directive :=
  let d := set_inited true d in
  match el with
  | Document w => set_window w d
  | NoDocument => d
  end.

(** [window.cancelAnimationFrame(id)]: the request leaves the queue. *)
Definition cancelAnimationFrame (id : nat) (d : Directive) : Directive :=
  set_frameQueue (List.filter (fun h => negb (Nat.eqb h id)) (frameQueue d)) d.

(** [ngOnDestroy].  The test [if (this.animId)] is a truthiness test: an
    undefined [animId] and a handle [0] both skip the cancellation.  Without
    a window the call would throw before doing anything. *)
Definition ngOnDestroy (d : Directive) : Directive :=
  match animId d with
  | Some id =>
      if Nat.eqb id 0 then d
      else if window d then cancelAnimationFrame id d
      else d
  | None => d
  end.

(** [scheduleAnimationFrame]: the window issues the next handle and queues
    the callback. *)
Definition scheduleAnimationFrame (d : Directive) : Directive :=
  match animId d with
  | None =>
      if window d then
        let id := S (lastFrameId d) in
        set_animId (Some id)
          (set_frameQueue (frameQueue d ++ [id]) (set_lastFrameId id d))
      else d
  | Some _ => d
  end.

(** [removeStackEntry]: the view at the entry's index is torn down by the
    view container, and the index is spliced out of the stack.  (The view
    container takes [-1] for its last view, as [splice] does.) *)
Definition removeStackEntry (stackEntry : ref) (d : Directive) : Directive :=
  let index := indexOf stackEntry (stack d) in
  let d :=
    set_destroyedViews
      (destroyedViews d ++ splicedOut index (viewContainer d))
      (set_viewContainer (spliceOne index (viewContainer d)) d) in
  set_stack (spliceOne index (stack d)) d.

(** [newCurrent] *)
Definition newCurrent (v : value) (d : Directive) : Directive :=
  let instant := negb (window d) || negb (inited d) in
  let context :=
    newAnimateByContext v (if instant then here else entering)
      (match AnimateByOptions.timings (animateByOptions d) with
       | Some tm => tm
       | None => defaultAnimateByTimings
       end) in
  let r := nextRef d in
  let d := set_nextRef (S r) (set_heap (<[r := context]> (heap d)) d) in
  let d := set_viewContainer (viewContainer d ++ [r]) d in
  let d := set_current (Some r) d in
  let d := set_stack (stack d ++ [r]) d in
  if instant then d else scheduleAnimationFrame d.

(** [removeCurrent]; the setter calls it with a current entry only, and
    the current entry has a context in every execution. *)
Definition removeCurrent (d : Directive) : Directive :=
  match current d with
  | None => d
  | Some r =>
      let d :=
        if window d then
          match heap d !! r with
          | Some c =>
              if decide (state c = here) then
                scheduleAnimationFrame
                  (set_heap (<[r := set_state leaving c]> (heap d)) d)
              else if AnimateByOptions.symmetric (animateByOptions d)
                      && bool_decide (state c = entering) then
                scheduleAnimationFrame
                  (set_heap (<[r := set_state reverse c]> (heap d)) d)
              else d
          | None => d
          end
        else removeStackEntry r d in
      set_current None d
  end.

(** The setter of the [animateBy] input. *)
Definition animateBy (v : option value) (d : Directive) : Directive :=
  let co : option value :=
    match current d with
    | Some r => implicit <$> heap d !! r
    | None => None
    end in
  if decide (co = v) then d
  else
    let d := match current d with
             | Some _ => removeCurrent d
             | None => d
             end in
    match v with
    | Some x => newCurrent x d
    | None => d
    end.

(** [reverseAnimation] *)
Definition reverseAnimation (context : AnimateByContext) (clock : num)
    : AnimateByContext :=
  set_state leaving
    (set_startTime
       (Some (clock - leave (timings context) * (Fin 1 - existence context))%js)
       context).

(** What one turn of the loop of [doAnimationFrame] does to the context of a
    stack entry: the context after the turn, whether the turn set
    [scheduleAnother], and whether it pushed the entry on [toRemove]. *)
Definition frameContext (clock : num) (isCurrent : bool)
    (context : AnimateByContext) : AnimateByContext * bool * bool :=
  let context :=
    if negb (bool_decide (state context = here))
       && bool_decide (startTime context = None)
    then set_startTime (Some clock) context
    else context in
  let context :=
    if decide (state context = reverse) then reverseAnimation context clock
    else context in
  let localClock := (clock - JsNumber.of_undefined (startTime context))%js in
  match state context with
  | entering =>
      let context :=
        set_existence
          (JsNumber.min (Fin 1) (localClock / enter (timings context))%js)
          context in
      if (existence context >=? Fin 1)%js then
        if isCurrent then
          (set_startTime None (set_state here context), false, false)
        else
          (set_startTime None (set_state leaving context), true, false)
      else (context, true, false)
  | leaving =>
      let context :=
        set_existence
          (Fin 1
           - JsNumber.min (Fin 1) (localClock / leave (timings context)))%js
          context in
      if (existence context <=? Fin 0)%js then (context, false, true)
      else (context, true, false)
  | _ => (context, false, false)
  end.

(** The variables the loop of [doAnimationFrame] updates. *)
Record FrameLoop : Type := mkFrameLoop {
  loopHeap : gmap ref AnimateByContext;
  scheduleAnother : bool;
  toRemove : list ref
}.

(** One turn of the loop, for the entry [stackEntry]. *)
Definition frameEntry (clock : num) (cur : option ref) (acc : FrameLoop)
    (stackEntry : ref) : FrameLoop :=
  match loopHeap acc !! stackEntry with
  | Some context =>
      let '(context', another, remove) :=
        frameContext clock (bool_decide (Some stackEntry = cur)) context in
      {| loopHeap := <[stackEntry := context']> (loopHeap acc);
         scheduleAnother := scheduleAnother acc || another;
         toRemove := if remove then toRemove acc ++ [stackEntry]
                     else toRemove acc |}
  | None => acc
  end.

(** [doAnimationFrame] *)
Definition doAnimationFrame (clock : num) (d : Directive) : Directive :=
  let d := set_animId None d in
  let loop :=
    fold_left (frameEntry clock (current d)) (stack d)
      {| loopHeap := heap d; scheduleAnother := false; toRemove := [] |} in
  let d := set_heap (loopHeap loop) d in
  let d := fold_left (fun d stackEntry => removeStackEntry stackEntry d)
             (toRemove loop) d in
  let d := set_markedForCheck (S (markedForCheck d)) d in
  if scheduleAnother loop then scheduleAnimationFrame d else d.

(** ** Executions *)

(** What the host does to a directive between its construction and its
    destruction. *)
Inductive Event : Type :=
  | Init (el : ElementRef)                 (* the [ngOnInit] hook *)
  | SetAnimateBy (v : option value)        (* the [animateBy] input changes *)
  | SetOptions (o : AnimateByOptions.t)    (* [animateByOptions] changes *)
  | Frame (clock : num).                   (* the window runs a frame *)

(** The window runs the oldest callback of its queue with the time stamp of
    the frame; a frame with an empty queue calls nothing. *)
Definition runFrame (clock : num) (d : Directive) : Directive :=
  match frameQueue d with
  | [] => d
  | _ :: q => doAnimationFrame clock (set_frameQueue q d)
  end.

(** The host calls [ngOnInit] once: a second [Init] is not delivered. *)
Definition step (d : Directive) (e : Event) : Directive :=
  match e with
  | Init el => if inited d then d else ngOnInit el d
  | SetAnimateBy v => animateBy v d
  | SetOptions o => set_animateByOptions o d
  | Frame clock => runFrame clock d
  end.

Definition run (evs : list Event) (d : Directive) : Directive :=
  fold_left step evs d.

(** ** Observations *)

(** The context of the entry at address [r]. *)
Definition contextOf (d : Directive) (r : ref) : option AnimateByContext :=
  heap d !! r.

Definition stateIs (st : State) (d : Directive) (r : ref) : bool :=
  match contextOf d r with
  | Some c => bool_decide (state c = st)
  | None => false
  end.

(** The entries of the stack in state ['here']. *)
Definition hereEntries (d : Directive) : list ref :=
  List.filter (stateIs here d) (stack d).

(** ** The loop of [doAnimationFrame], entry by entry *)

(** The turn of the loop for the entry [r], in the store [h]. *)
Definition frameOf (clock : num) (cur : option ref)
    (h : gmap ref AnimateByContext) (r : ref)
    : option (AnimateByContext * bool * bool) :=
  frameContext clock (bool_decide (Some r = cur)) <$> h !! r.

(** The turn for [r] pushes it on [toRemove]. *)
Definition removes (clock : num) (cur : option ref)
    (h : gmap ref AnimateByContext) (r : ref) : bool :=
  match frameOf clock cur h r with
  | Some (_, _, remove) => remove
  | None => false
  end.

(** The turn for [r] sets [scheduleAnother]. *)
Definition asksAnother (clock : num) (cur : option ref)
    (h : gmap ref AnimateByContext) (r : ref) : bool :=
  match frameOf clock cur h r with
  | Some (_, another, _) => another
  | None => false
  end.

(** The context [r] has after a frame at [clock]. *)
Definition framed (clock : num) (d : Directive) (r : ref)
    (c : AnimateByContext) : AnimateByContext :=
  if bool_decide (r ∈ stack d)
  then (frameContext clock (bool_decide (Some r = current d)) c).1.1
  else c.

(** ** Invariants *)

(** Well-formed directives: what every execution maintains. *)
Record WF (d : Directive) : Prop := mkWF {
  wf_nodup : NoDup (stack d);
  wf_heap : ∀ r, is_Some (heap d !! r) ↔ r < nextRef d;
  wf_stack : ∀ r, r ∈ stack d → r < nextRef d;
  wf_current : ∀ r, current d = Some r → r ∈ stack d;
  wf_here : ∀ r c, r ∈ stack d → heap d !! r = Some c → state c = here →
            current d = Some r ∧ startTime c = None ∧ existence c = Fin 1;
  wf_current_state : ∀ r c, current d = Some r → heap d !! r = Some c →
            state c = entering ∨ state c = here;
  wf_views : viewContainer d = stack d;
  wf_queue : frameQueue d = match animId d with Some h => [h] | None => [] end;
  wf_animId : ∀ h, animId d = Some h → h ≠ 0 ∧ window d = true;
  wf_window : window d = true → inited d = true;
  wf_nodriver : window d = false →
            animId d = None ∧ lastFrameId d = 0
            ∧ stack d = match current d with Some r => [r] | None => [] end
            ∧ ∀ r c, r ∈ stack d → heap d !! r = Some c → state c = here
}.

(** Durations that are finite and strictly positive. *)
Definition positiveTimings (tm : AnimateByTimings) : Prop :=
  JsNumber.positive (enter tm) ∧ JsNumber.positive (leave tm).

Definition positiveOptions (o : AnimateByOptions.t) : Prop :=
  match AnimateByOptions.timings o with
  | Some tm => positiveTimings tm
  | None => True
  end.

(** A start time that is finite and not after the last frame. *)
Definition startedBy (last : option Q) (t : option num) : Prop :=
  match t with
  | None => True
  | Some (Fin q) => match last with Some l => (q <= l)%Q | None => False end
  | Some _ => False
  end.

(** A context under positive durations and a clock that does not run
    backwards: the existence is in the unit interval. *)
Definition timedContext (last : option Q) (c : AnimateByContext) : Prop :=
  positiveTimings (timings c)
  ∧ JsNumber.between 0 1 (existence c)
  ∧ startedBy last (startTime c).

Definition Timed (last : option Q) (d : Directive) : Prop :=
  positiveOptions (animateByOptions d)
  ∧ ∀ r c, heap d !! r = Some c → timedContext last c.

(** Executions with positive durations whose frames carry finite time
    stamps that never decrease; [last] is the time stamp of the last frame
    before the events. *)
Fixpoint validEvents (last : option Q) (evs : list Event) : Prop :=
  match evs with
  | [] => True
  | Frame (Fin q) :: evs' =>
      match last with Some l => (l <= q)%Q | None => True end
      ∧ validEvents (Some q) evs'
  | Frame _ :: _ => False
  | SetOptions o :: evs' => positiveOptions o ∧ validEvents last evs'
  | _ :: evs' => validEvents last evs'
  end.

(** The time stamp of the last frame of an execution. *)
Fixpoint lastClock (last : option Q) (evs : list Event) : option Q :=
  match evs with
  | [] => last
  | Frame (Fin q) :: evs' => lastClock (Some q) evs'
  | _ :: evs' => lastClock last evs'
  end.

(** Events other than frames. *)
Definition isFrame (e : Event) : bool :=
  match e with
  | Frame _ => true
  | _ => false
  end.

(** An entry that was retired while entering, and is not current any more. *)
Record Superseded (r : ref) (d : Directive) : Prop := mkSuperseded {
  sup_wf : WF d;
  sup_window : window d = true;
  sup_alloc : r < nextRef d;
  sup_current : current d ≠ Some r;
  sup_state : ∃ c, heap d !! r = Some c
              ∧ (state c = entering ∧ r ∈ stack d ∨ state c = leaving)
}.

(** Every field but the stack, the view container and the log of torn down
    views. *)
Definition sameButStack (d d' : Directive) : Prop :=
  animateByOptions d' = animateByOptions d ∧ current d' = current d
  ∧ window d' = window d ∧ animId d' = animId d ∧ inited d' = inited d
  ∧ heap d' = heap d ∧ nextRef d' = nextRef d
  ∧ frameQueue d' = frameQueue d ∧ lastFrameId d' = lastFrameId d
  ∧ markedForCheck d' = markedForCheck d.


(** The store the loop of [doAnimationFrame] leaves. *)
Definition frameHeap (clock : num) (d : Directive)
    : gmap ref AnimateByContext :=
  loopHeap
    (fold_left (frameEntry clock (current d)) (stack d)
       {| loopHeap := heap d; scheduleAnother := false; toRemove := [] |}).

(** The directive [doAnimationFrame] leaves before it looks at
    [scheduleAnother], on a stack without repetition that is mirrored by the
    view container. *)
Definition frameResult (clock : num) (d : Directive) : Directive :=
  let rm := removes clock (current d) (heap d) in
  {| animateByOptions := animateByOptions d;
     stack := List.filter (fun r => negb (rm r)) (stack d);
     current := current d;
     window := window d;
     animId := None;
     inited := inited d;
     heap := frameHeap clock d;
     nextRef := nextRef d;
     viewContainer := List.filter (fun r => negb (rm r)) (stack d);
     destroyedViews := destroyedViews d ++ List.filter rm (stack d);
     frameQueue := frameQueue d;
     lastFrameId := lastFrameId d;
     markedForCheck := S (markedForCheck d) |}.

(** Some turn of the loop sets [scheduleAnother]. *)
Definition frameAsksAnother (clock : num) (d : Directive) : bool :=
  existsb (asksAnother clock (current d) (heap d)) (stack d).

(** What [removeCurrent] does to the context of the current entry when the
    directive has a window. *)
Definition retire (d : Directive) (c : AnimateByContext) : AnimateByContext :=
  if window d then
    if decide (state c = here) then set_state leaving c
    else if AnimateByOptions.symmetric (animateByOptions d)
            && bool_decide (state c = entering)
    then set_state reverse c
    else c
  else c.

(** The context a change of the input to [v] leaves to the entry [r], whose
    context was [c]. *)
Definition retiredBy (v : option value) (d : Directive) (r : ref)
    (c : AnimateByContext) : AnimateByContext :=
  if bool_decide (current d = Some r ∧ Some (implicit c) ≠ v)
  then retire d c
  else c.

(** The context a frame of the window leaves to the entry [r], whose
    context was [c]: nothing runs when no request is outstanding. *)
Definition framedBy (clock : num) (d : Directive) (r : ref)
    (c : AnimateByContext) : AnimateByContext :=
  if bool_decide (frameQueue d = []) then c else framed clock d r c.

(** The context of a fresh entry for [x]. *)
Definition freshContext (x : value) (d : Directive) : AnimateByContext :=
  newAnimateByContext x
    (if negb (window d) || negb (inited d) then here else entering)
    (match AnimateByOptions.timings (animateByOptions d) with
     | Some tm => tm
     | None => defaultAnimateByTimings
     end).

(** While an entry of the stack is not ['here'], a frame is requested. *)
Definition Pending (d : Directive) : Prop :=
  ∀ r c, r ∈ stack d → heap d !! r = Some c → state c ≠ here →
         animId d ≠ None.

(** What events other than frames can do to a context: nothing, or retire
    it from ['here'] to ['leaving'], or from ['entering'] to ['reverse']. *)
Definition Retired (c c' : AnimateByContext) : Prop :=
  c' = c
  ∨ state c = here ∧ c' = set_state leaving c
  ∨ state c = entering ∧ c' = set_state reverse c.

(** Options with both durations set to [0]. *)
Definition zeroTimings : AnimateByOptions.t :=
  AnimateByOptions.mk false (Some {| enter := Fin 0; leave := Fin 0 |}).

(** ** Further invariants *)

(** The views of the host: the view container mirrors the stack, and the
    views in the container together with the views torn down are the views
    created, each once. *)
Definition Views (d : Directive) : Prop :=
  viewContainer d = stack d
  ∧ stack d ++ destroyedViews d ≡ₚ seq 0 (nextRef d).

(** The stack keeps the order of creation, and the current entry is its
    last entry. *)
Definition Ordered (d : Directive) : Prop :=
  stack d `sublist_of` seq 0 (nextRef d)
  ∧ ∀ r, current d = Some r → last (stack d) = Some r ∧ S r = nextRef d.

(** A frame is only requested while an entry of the stack is not
    ['here']. *)
Definition Busy (d : Directive) : Prop :=
  animId d ≠ None →
  ∃ r c, r ∈ stack d ∧ heap d !! r = Some c ∧ state c ≠ here.

(** Frames that ran and frames that are requested add up to the handles
    the window issued. *)
Definition Counted (d : Directive) : Prop :=
  markedForCheck d + length (frameQueue d) = lastFrameId d.

(** A directive whose pending frame was cancelled: [animId] still holds the
    handle, and the queue is empty. *)
Definition Cancelled (d : Directive) : Prop :=
  animId d ≠ None ∧ frameQueue d = [].

(** ** The arithmetic of a frame in double precision

    The exact numbers of [JsNumber] leave rounding out.  The numbers of the
    directive are IEEE-754 binary64 numbers; where a property depends on
    their rounding, the loop of [doAnimationFrame], which holds all the
    arithmetic of the directive, is evaluated on them.  [Binary64] takes the
    operations from the specification of the format in the standard library
    ([SpecFloat]: precision 53, round to nearest, ties to even, two zeros,
    two infinities, one NaN). *)
Module Binary64.

Abbreviation num := SpecFloat.spec_float.

Definition prec : Z := 53.
Definition emax : Z := 1024.

(** [a - b] *)
Definition sub (a b : num) : num := SpecFloat.SFsub prec emax a b.

(** [a * b] *)
Definition mul (a b : num) : num := SpecFloat.SFmul prec emax a b.

(** [a / b] *)
Definition div (a b : num) : num := SpecFloat.SFdiv prec emax a b.

(** [a <= b]: false as soon as one argument is NaN. *)
Definition le (a b : num) : bool := SpecFloat.SFleb a b.

(** [a >= b] *)
Definition ge (a b : num) : bool := le b a.

(** [a === b] on numbers: false for NaN, true for the two zeros. *)
Definition eqb (a b : num) : bool := SpecFloat.SFeqb a b.

(** [Math.min(a, b)]: NaN as soon as one argument is, and [-0] below
    [+0]. *)
Definition min (a b : num) : num :=
  match SpecFloat.SFcompare a b with
  | None => SpecFloat.S754_nan
  | Some Lt => a
  | Some Gt => b
  | Some Eq =>
      match b with
      | SpecFloat.S754_zero true => b
      | _ => a
      end
  end.

(** Numeric value of a possibly [undefined] operand. *)
Definition of_undefined (o : option num) : num :=
  match o with
  | Some x => x
  | None => SpecFloat.S754_nan
  end.

(** The number of an integer literal. *)
Definition of_Z (z : Z) : num := SpecFloat.binary_normalize prec emax z 0 false.

(** [Math.abs(a)] *)
Definition abs (a : num) : num := SpecFloat.SFabs a.

(** The power [2 ^ e] of two. *)
Definition pow2 (e : Z) : num := SpecFloat.binary_normalize prec emax 1 e false.

End Binary64.

#[global] Arguments Binary64.sub : simpl never.
#[global] Arguments Binary64.mul : simpl never.
#[global] Arguments Binary64.div : simpl never.
#[global] Arguments Binary64.min : simpl never.
#[global] Arguments Binary64.le : simpl never.
#[global] Arguments Binary64.ge : simpl never.
#[global] Arguments Binary64.of_Z : simpl never.

Module Double.

Record Timings : Type := mkTimings {
  enter : Binary64.num;
  leave : Binary64.num
}.

(** [{enter: 1000, leave: 1000}] *)
Definition theDefaultAnimateByTimings : Timings :=
  {| enter := Binary64.of_Z 1000; leave := Binary64.of_Z 1000 |}.

Record Context : Type := mkContext {
  implicit : value;
  state : State;
  existence : Binary64.num;
  timings : Timings;
  startTime : option Binary64.num
}.

(** The constructor of [AnimateByContext]. *)
Definition newAnimateByContext (v : value) (st : State) (tm : Timings)
    : Context :=
  {| implicit := v;
     state := st;
     existence := match st with
                  | here => Binary64.of_Z 1
                  | _ => Binary64.of_Z 0
                  end;
     timings := {| enter := enter tm; leave := leave tm |};
     startTime := None |}.

Definition set_state (st : State) (c : Context) : Context :=
  {| implicit := implicit c; state := st; existence := existence c;
     timings := timings c; startTime := startTime c |}.

Definition set_existence (e : Binary64.num) (c : Context) : Context :=
  {| implicit := implicit c; state := state c; existence := e;
     timings := timings c; startTime := startTime c |}.

Definition set_startTime (t : option Binary64.num) (c : Context) : Context :=
  {| implicit := implicit c; state := state c; existence := existence c;
     timings := timings c; startTime := t |}.

(** [reverseAnimation] *)
Definition reverseAnimation (context : Context) (clock : Binary64.num)
    : Context :=
  set_state leaving
    (set_startTime
       (Some (Binary64.sub clock
                (Binary64.mul (leave (timings context))
                   (Binary64.sub (Binary64.of_Z 1) (existence context)))))
       context).

(** One turn of the loop of [doAnimationFrame]: the context after the turn,
    whether the turn set [scheduleAnother], and whether it pushed the entry
    on [toRemove]. *)
Definition frameContext (clock : Binary64.num) (isCurrent : bool)
    (context : Context) : Context * bool * bool :=
  let context :=
    if negb (bool_decide (state context = here))
       && match startTime context with None => true | Some _ => false end
    then set_startTime (Some clock) context
    else context in
  let context :=
    if decide (state context = reverse) then reverseAnimation context clock
    else context in
  let localClock :=
    Binary64.sub clock (Binary64.of_undefined (startTime context)) in
  match state context with
  | entering =>
      let context :=
        set_existence
          (Binary64.min (Binary64.of_Z 1)
             (Binary64.div localClock (enter (timings context))))
          context in
      if Binary64.ge (existence context) (Binary64.of_Z 1) then
        if isCurrent then
          (set_startTime None (set_state here context), false, false)
        else
          (set_startTime None (set_state leaving context), true, false)
      else (context, true, false)
  | leaving =>
      let context :=
        set_existence
          (Binary64.sub (Binary64.of_Z 1)
             (Binary64.min (Binary64.of_Z 1)
                (Binary64.div localClock (leave (timings context)))))
          context in
      if Binary64.le (existence context) (Binary64.of_Z 0)
      then (context, false, true)
      else (context, true, false)
  | _ => (context, false, false)
  end.

(** What [removeCurrent] does to the context of the current entry when
    there is a window. *)
Definition retire (symmetric : bool) (c : Context) : Context :=
  if decide (state c = here) then set_state leaving c
  else if symmetric && bool_decide (state c = entering)
       then set_state reverse c
       else c.

(** The context of an entry created entering with the timings [tm], after
    frames at the clocks [clocks] during which it is the current entry, then
    retired with [symmetric] set. *)
Definition reversedAt (tm : Timings) (clocks : list Z) : Context :=
  retire true
    (fold_left (fun c q => (frameContext (Binary64.of_Z q) true c).1.1)
       clocks (newAnimateByContext 7 entering tm)).

(** The existence of an entry created entering with the timings [tm], at
    its retirement after frames at [0] and at [k], and after the next frame,
    at [next]. *)
Definition reversal (tm : Timings) (k next : Z)
    : Binary64.num * Binary64.num :=
  let c := reversedAt tm [0%Z; k] in
  (existence c, existence (frameContext (Binary64.of_Z next) false c).1.1).

End Double.
(** ** Arrays: [indexOf] and [splice] on a stack without repetition *)

Section Arrays.

Lemma indexOf_notin (x : ref) (l : list ref) :
  x ∉ l → indexOf x l = (-1)%Z.
Proof.
  induction l as [|y l IH]; intros Hx; simpl; [done|].
  apply not_elem_of_cons in Hx as [Hne Hnin].
  destruct (decide (y = x)) as [->|_]; [done|].
  rewrite (IH Hnin). done.
Qed.

Lemma indexOf_in (x : ref) (l : list ref) :
  x ∈ l → (0 <= indexOf x l)%Z ∧ l !! Z.to_nat (indexOf x l) = Some x.
Proof.
  induction l as [|y l IH]; intros Hx; simpl.
  - by apply elem_of_nil in Hx.
  - destruct (decide (y = x)) as [->|Hne]; [done|].
    apply elem_of_cons in Hx as [->|Hin]; [done|].
    destruct (IH Hin) as [Hpos Hlk].
    destruct (Z.ltb_spec (indexOf x l) 0) as [Hneg|_]; [lia|].
    split; [lia|].
    replace (Z.to_nat (indexOf x l + 1)) with (S (Z.to_nat (indexOf x l)))
      by lia.
    done.
Qed.

Lemma removeAt_lookup_NoDup (l : list ref) (n : nat) (x : ref) :
  NoDup l → l !! n = Some x →
  removeAt n l = List.filter (fun y => negb (Nat.eqb y x)) l.
Proof.
  revert n. induction l as [|y l IH]; intros n Hnd Hlk; [done|].
  apply NoDup_cons in Hnd as [Hy Hnd].
  destruct n as [|n]; simpl in *.
  - injection Hlk as ->. rewrite Nat.eqb_refl. simpl.
    symmetry. apply forallb_filter_id. apply forallb_forall.
    intros z Hz. apply list_elem_of_In in Hz.
    destruct (Nat.eqb_spec z x) as [->|]; done.
  - destruct (Nat.eqb_spec y x) as [->|Hne]; simpl.
    + exfalso. apply Hy. eapply list_elem_of_lookup_2. done.
    + f_equal. by apply IH.
Qed.

Lemma spliceOne_indexOf (l : list ref) (x : ref) :
  NoDup l → x ∈ l →
  spliceOne (indexOf x l) l = List.filter (fun y => negb (Nat.eqb y x)) l
  ∧ splicedOut (indexOf x l) l = [x].
Proof.
  intros Hnd Hx. destruct (indexOf_in x l Hx) as [Hpos Hlk].
  unfold spliceOne, splicedOut, spliceStart.
  destruct (Z.ltb_spec (indexOf x l) 0) as [Hneg|_]; [lia|].
  rewrite Hlk. split; [|done]. by apply removeAt_lookup_NoDup.
Qed.

Lemma NoDup_bfilter {A : Type} (f : A → bool) (l : list A) :
  NoDup l → NoDup (List.filter f l).
Proof. intros H. by apply NoDup_ListNoDup, List.NoDup_filter, NoDup_ListNoDup. Qed.

Lemma elem_of_bfilter {A : Type} (f : A → bool) (l : list A) (x : A) :
  x ∈ List.filter f l ↔ x ∈ l ∧ f x = true.
Proof. rewrite !list_elem_of_In. apply filter_In. Qed.

Lemma bfilter_bfilter {A : Type} (f g : A → bool) (l : list A) :
  List.filter f (List.filter g l) = List.filter (fun x => g x && f x) l.
Proof.
  induction l as [|a l IH]; simpl; [done|].
  destruct (g a); simpl; [destruct (f a)|]; by rewrite IH.
Qed.

End Arrays.

(** ** The loop of [doAnimationFrame] *)

Section FrameLoop.

Variable clock : num.
Variable cur : option ref.

Lemma frameEntry_heap_ne acc a r :
  r ≠ a → loopHeap (frameEntry clock cur acc a) !! r = loopHeap acc !! r.
Proof.
  intros Hne. unfold frameEntry.
  destruct (loopHeap acc !! a) as [c|]; [|done].
  destruct (frameContext _ _ c) as [[c' another] remove]; simpl.
  by rewrite lookup_insert_ne.
Qed.

Lemma frameLoop_heap_notin l acc r :
  r ∉ l →
  loopHeap (fold_left (frameEntry clock cur) l acc) !! r = loopHeap acc !! r.
Proof.
  revert acc. induction l as [|a l IH]; intros acc Hr; simpl; [done|].
  apply not_elem_of_cons in Hr as [Hne Hr].
  rewrite IH by done. by apply frameEntry_heap_ne.
Qed.

Lemma frameEntry_heap_none acc a r :
  loopHeap acc !! r = None → loopHeap (frameEntry clock cur acc a) !! r = None.
Proof.
  intros Hr. destruct (decide (r = a)) as [->|Hne].
  - unfold frameEntry. by rewrite Hr.
  - by rewrite frameEntry_heap_ne.
Qed.

Lemma frameLoop_heap_notin_none l acc r :
  loopHeap acc !! r = None →
  loopHeap (fold_left (frameEntry clock cur) l acc) !! r = None.
Proof.
  revert acc. induction l as [|a l IH]; intros acc Hr; simpl; [done|].
  apply IH. by apply frameEntry_heap_none.
Qed.

Lemma frameLoop_heap_in l acc r c :
  NoDup l → r ∈ l → loopHeap acc !! r = Some c →
  loopHeap (fold_left (frameEntry clock cur) l acc) !! r
  = Some (frameContext clock (bool_decide (Some r = cur)) c).1.1.
Proof.
  revert acc. induction l as [|a l IH]; intros acc Hnd Hr Hc; simpl.
  - by apply elem_of_nil in Hr.
  - apply NoDup_cons in Hnd as [Ha Hnd].
    apply elem_of_cons in Hr as [->|Hr].
    + rewrite frameLoop_heap_notin by done.
      unfold frameEntry. rewrite Hc.
      destruct (frameContext _ _ c) as [[c' another] remove]; simpl.
      by rewrite lookup_insert_eq.
    + apply IH; [done..|].
      rewrite frameEntry_heap_ne; [done|]. intros ->. done.
Qed.

Lemma frameLoop_flags l acc :
  NoDup l →
  let res := fold_left (frameEntry clock cur) l acc in
  toRemove res
  = toRemove acc ++ List.filter (removes clock cur (loopHeap acc)) l
  ∧ scheduleAnother res
    = scheduleAnother acc
      || existsb (asksAnother clock cur (loopHeap acc)) l.
Proof.
  revert acc. induction l as [|a l IH]; intros acc Hnd; simpl.
  - by rewrite app_nil_r, orb_false_r.
  - apply NoDup_cons in Hnd as [Ha Hnd].
    destruct (IH (frameEntry clock cur acc a) Hnd) as [IHr IHs].
    rewrite IHr, IHs. clear IHr IHs IH.
    assert (Hext : ∀ r, r ∈ l →
              frameOf clock cur (loopHeap (frameEntry clock cur acc a)) r
              = frameOf clock cur (loopHeap acc) r).
    { intros r Hr. unfold frameOf. rewrite frameEntry_heap_ne; [done|].
      intros ->. done. }
    assert (Hfilter :
              List.filter
                (removes clock cur (loopHeap (frameEntry clock cur acc a))) l
              = List.filter (removes clock cur (loopHeap acc)) l).
    { apply filter_ext_in. intros r Hr. apply list_elem_of_In in Hr.
      unfold removes. by rewrite Hext. }
    assert (Hexists :
              existsb
                (asksAnother clock cur (loopHeap (frameEntry clock cur acc a)))
                l
              = existsb (asksAnother clock cur (loopHeap acc)) l).
    { apply eq_true_iff_eq. rewrite !existsb_exists.
      split; intros (r & Hr & Hx); exists r; (split; [done|]);
        apply list_elem_of_In in Hr; unfold asksAnother in *;
        rewrite Hext in *; done. }
    rewrite Hfilter, Hexists. clear Hfilter Hexists Hext.
    unfold removes, asksAnother, frameOf, frameEntry.
    destruct (loopHeap acc !! a) as [c|]; simpl.
    + destruct (frameContext _ _ c) as [[c' another] remove]; simpl.
      split; [|by rewrite orb_assoc].
      destruct remove; [by rewrite <- app_assoc|done].
    + done.
Qed.

End FrameLoop.

(** ** Removal of stack entries *)

Section Removal.

Lemma removeStackEntry_in d r :
  NoDup (stack d) → viewContainer d = stack d → r ∈ stack d →
  removeStackEntry r d
  = set_stack (List.filter (fun y => negb (Nat.eqb y r)) (stack d))
      (set_destroyedViews (destroyedViews d ++ [r])
         (set_viewContainer
            (List.filter (fun y => negb (Nat.eqb y r)) (stack d)) d)).
Proof.
  intros Hnd Hv Hr. unfold removeStackEntry. simpl. rewrite Hv.
  destruct (spliceOne_indexOf (stack d) r Hnd Hr) as [-> ->]. done.
Qed.

Lemma removeAll_spec rs : ∀ d,
  NoDup (stack d) → viewContainer d = stack d →
  (∀ r, r ∈ rs → r ∈ stack d) → NoDup rs →
  let d' := fold_left (fun d r => removeStackEntry r d) rs d in
  stack d' = List.filter (fun y => negb (bool_decide (y ∈ rs))) (stack d)
  ∧ viewContainer d' = stack d'
  ∧ destroyedViews d' = destroyedViews d ++ rs
  ∧ sameButStack d d'.
Proof.
  induction rs as [|a rs IH]; intros d Hnd Hv Hsub Hrs; simpl.
  - split_and!; try done.
    + symmetry. apply forallb_filter_id. apply forallb_forall.
      intros y _. done.
    + by rewrite app_nil_r.
  - apply NoDup_cons in Hrs as [Ha Hrs].
    assert (Hin : a ∈ stack d) by (apply Hsub; left).
    rewrite (removeStackEntry_in d a Hnd Hv Hin).
    set (d1 := set_stack _ _).
    assert (Hstack1 : stack d1
                      = List.filter (fun y => negb (Nat.eqb y a)) (stack d))
      by done.
    destruct (IH d1) as (Hs & Hvw & Hd & Hsame).
    + rewrite Hstack1. by apply NoDup_bfilter.
    + done.
    + intros r Hr. rewrite Hstack1. apply elem_of_bfilter.
      split; [apply Hsub; by right|].
      destruct (Nat.eqb_spec r a) as [->|]; done.
    + done.
    + split_and!.
      * rewrite Hs, Hstack1. rewrite bfilter_bfilter.
        apply filter_ext. intros y.
        destruct (Nat.eqb_spec y a) as [->|Hne]; simpl.
        -- rewrite bool_decide_eq_true_2; [done|left].
        -- destruct (decide (y ∈ rs)) as [Hy|Hy].
           ++ rewrite !bool_decide_eq_true_2; [done|by right|done].
           ++ rewrite !bool_decide_eq_false_2; [done| |done].
              intros [?|?]%elem_of_cons; done.
      * done.
      * rewrite Hd. simpl. by rewrite <- app_assoc.
      * destruct Hsame as (?&?&?&?&?&?&?&?&?&?). by split_and!.
Qed.

End Removal.

(** ** [doAnimationFrame] on a well-formed stack *)

Section Frame.

Lemma Directive_ext (d d' : Directive) :
  animateByOptions d = animateByOptions d' → stack d = stack d' →
  current d = current d' → window d = window d' → animId d = animId d' →
  inited d = inited d' → heap d = heap d' → nextRef d = nextRef d' →
  viewContainer d = viewContainer d' → destroyedViews d = destroyedViews d' →
  frameQueue d = frameQueue d' → lastFrameId d = lastFrameId d' →
  markedForCheck d = markedForCheck d' → d = d'.
Proof. destruct d, d'; simpl; intros; by subst. Qed.

Lemma frameHeap_lookup clock d r :
  NoDup (stack d) →
  frameHeap clock d !! r = framed clock d r <$> heap d !! r.
Proof.
  intros Hnd. unfold frameHeap, framed.
  destruct (decide (r ∈ stack d)) as [Hr|Hr].
  - rewrite bool_decide_eq_true_2 by done.
    destruct (heap d !! r) as [c|] eqn:Hc; simpl.
    + by apply frameLoop_heap_in.
    + rewrite frameLoop_heap_notin_none; done.
  - rewrite bool_decide_eq_false_2 by done.
    rewrite frameLoop_heap_notin by done. simpl.
    by destruct (heap d !! r).
Qed.

Lemma doAnimationFrame_eq clock d :
  NoDup (stack d) → viewContainer d = stack d →
  doAnimationFrame clock d
  = if frameAsksAnother clock d
    then scheduleAnimationFrame (frameResult clock d)
    else frameResult clock d.
Proof.
  intros Hnd Hv. unfold doAnimationFrame.
  cbn [current stack heap set_animId].
  destruct (frameLoop_flags clock (current d) (stack d)
              {| loopHeap := heap d; scheduleAnother := false;
                 toRemove := [] |} Hnd) as [Hrm Hsa].
  cbn [loopHeap scheduleAnother toRemove app orb] in Hrm, Hsa.
  rewrite Hrm, Hsa. fold (frameAsksAnother clock d).
  set (rm := removes clock (current d) (heap d)).
  set (d1 := set_heap _ _).
  destruct (removeAll_spec (List.filter rm (stack d)) d1)
    as (Hs & Hvw & Hd & Hsame); [done|done| |by apply NoDup_bfilter|].
  { intros r Hr. apply elem_of_bfilter in Hr as [Hr _]. done. }
  set (d2 := fold_left _ _ d1) in *.
  assert (Hstack :
            stack d2 = List.filter (fun r => negb (rm r)) (stack d)).
  { rewrite Hs. apply filter_ext_in. intros r Hr.
    apply list_elem_of_In in Hr. f_equal.
    destruct (rm r) eqn:Hrm'.
    - apply bool_decide_eq_true_2, elem_of_bfilter. done.
    - apply bool_decide_eq_false_2. rewrite elem_of_bfilter.
      intros [_ ?]. congruence. }
  destruct Hsame as (Ho & Hc & Hw & Ha & Hi & Hh & Hn & Hq & Hl & Hm).
  assert (Heq : set_markedForCheck (S (markedForCheck d2)) d2
                = frameResult clock d).
  { apply Directive_ext; simpl; try done; try congruence.
    - by rewrite Hvw, Hstack.
    - by rewrite Hm. }
  rewrite Heq. done.
Qed.

End Frame.

(** ** One turn of the loop on a context *)

Section FrameContext.

Lemma ge_min_one (x : num) :
  (JsNumber.min (Fin 1) x >=? Fin 1)%js = true → JsNumber.min (Fin 1) x = Fin 1.
Proof.
  unfold JsNumber.ge, JsNumber.le, JsNumber.min.
  destruct x as [q| | |]; try done.
  destruct (Qle_bool 1 q) eqn:Hq; [done|]. intros H. congruence.
Qed.

(** Unfolds a turn of the loop along the state and the start time of the
    context. *)
Ltac turn c :=
  unfold frameContext, reverseAnimation;
  destruct c as [v st e tm t]; destruct st; simpl in *;
  try discriminate; subst;
  repeat match goal with
  | |- context [bool_decide (?t = None)] => destruct t; simpl
  | |- context [(?a >=? ?b)%js] =>
      let H := fresh "Hge" in destruct (a >=? b)%js eqn:H; simpl
  | |- context [(?a <=? ?b)%js] =>
      let H := fresh "Hle" in destruct (a <=? b)%js eqn:H; simpl
  | |- context [if ?b then _ else _] => is_var b; destruct b; simpl
  end.

Lemma frameContext_here clock b c :
  state c = here → frameContext clock b c = (c, false, false).
Proof. intros H. turn c; done. Qed.

Lemma frameContext_fixed clock b c :
  implicit (frameContext clock b c).1.1 = implicit c
  ∧ timings (frameContext clock b c).1.1 = timings c.
Proof. turn c; done. Qed.

Lemma frameContext_entering clock b c :
  state c = entering →
  let t := default clock (startTime c) in
  let e := JsNumber.min (Fin 1) ((clock - t) / enter (timings c))%js in
  frameContext clock b c
  = if (e >=? Fin 1)%js
    then (set_startTime None
            (set_state (if b then here else leaving) (set_existence e c)),
          negb b, false)
    else (set_startTime (Some t) (set_existence e c), true, false).
Proof. intros H. turn c; done. Qed.

Lemma frameContext_leaving clock b c :
  state c = leaving →
  let t := default clock (startTime c) in
  let e := (Fin 1 - JsNumber.min (Fin 1) ((clock - t) / leave (timings c)))%js in
  frameContext clock b c
  = (set_startTime (Some t) (set_existence e c),
     negb (e <=? Fin 0)%js, (e <=? Fin 0)%js).
Proof. intros H. turn c; done. Qed.

Lemma frameContext_reverse clock b c :
  state c = reverse →
  let t := (clock - leave (timings c) * (Fin 1 - existence c))%js in
  let e := (Fin 1 - JsNumber.min (Fin 1) ((clock - t) / leave (timings c)))%js in
  frameContext clock b c
  = (set_state leaving (set_startTime (Some t) (set_existence e c)),
     negb (e <=? Fin 0)%js, (e <=? Fin 0)%js).
Proof. intros H. turn c; done. Qed.

(** A context only becomes ['here'] as the current entry, when its entering
    animation completes. *)
Lemma frameContext_to_here clock b c :
  state (frameContext clock b c).1.1 = here →
  state c = here
  ∨ state c = entering ∧ b = true
    ∧ startTime (frameContext clock b c).1.1 = None
    ∧ existence (frameContext clock b c).1.1 = Fin 1.
Proof.
  destruct (state c) eqn:Hst.
  - rewrite frameContext_entering by done. cbv zeta.
    destruct (_ >=? _)%js eqn:Hge; simpl; [|congruence].
    destruct b; simpl; [|done]. intros _. right.
    by rewrite (ge_min_one _ Hge).
  - rewrite frameContext_leaving by done. simpl. congruence.
  - by left.
  - rewrite frameContext_reverse by done. simpl. done.
Qed.

(** Only a leaving context is pushed on [toRemove]. *)
Lemma frameContext_removes clock b c :
  (frameContext clock b c).2 = true →
  (state c = leaving ∨ state c = reverse)
  ∧ state (frameContext clock b c).1.1 = leaving.
Proof.
  destruct (state c) eqn:Hst.
  - rewrite frameContext_entering by done. cbv zeta.
    by destruct (_ >=? _)%js.
  - rewrite frameContext_leaving by done. simpl. auto.
  - rewrite frameContext_here by done. done.
  - rewrite frameContext_reverse by done. simpl. auto.
Qed.

(** The current entry stays entering or here. *)
Lemma frameContext_current clock c :
  state c = entering ∨ state c = here →
  (state (frameContext clock true c).1.1 = entering
   ∨ state (frameContext clock true c).1.1 = here)
  ∧ (frameContext clock true c).2 = false.
Proof.
  intros [Hst|Hst].
  - rewrite frameContext_entering by done. cbv zeta.
    destruct (_ >=? _)%js; simpl; auto.
  - rewrite frameContext_here by done. simpl. auto.
Qed.

(** A context that is not ['here'] asks for another frame unless it is
    removed or becomes ['here']. *)
Lemma frameContext_another clock b c :
  state c ≠ here →
  (frameContext clock b c).1.2 = true
  ∨ (frameContext clock b c).2 = true
  ∨ state (frameContext clock b c).1.1 = here.
Proof.
  intros Hne. destruct (state c) eqn:Hst; [| |done|].
  - rewrite frameContext_entering by done. cbv zeta.
    destruct (_ >=? _)%js; simpl; [|auto]. destruct b; simpl; auto.
  - rewrite frameContext_leaving by done. simpl.
    destruct (_ <=? _)%js; auto.
  - rewrite frameContext_reverse by done. simpl.
    destruct (_ <=? _)%js; auto.
Qed.

End FrameContext.

(** ** Well-formedness is kept by every method *)

Section WellFormed.

Lemma WF_newDirective : WF newDirective.
Proof.
  constructor; simpl; try done.
  - apply NoDup_nil_2.
  - intros r. rewrite lookup_empty. split; [by intros [? ?]|lia].
  - intros r Hr. by apply elem_of_nil in Hr.
Qed.

Lemma WF_ngOnInit el d : WF d → inited d = false → WF (ngOnInit el d).
Proof.
  intros [] Hi.
  assert (Hw : window d = false).
  { destruct (window d) eqn:Hw; [|done]. rewrite wf_window0 in Hi; done. }
  assert (Ha : animId d = None).
  { destruct (animId d) as [h|] eqn:Ha; [|done].
    destruct (wf_animId0 h eq_refl) as [_ ?]. congruence. }
  destruct (wf_nodriver0 Hw) as (_ & Hl & Hs & Hh).
  destruct el as [|w]; constructor; simpl; try done.
  intros h Hh'. congruence.
Qed.

Lemma WF_set_animateByOptions o d : WF d → WF (set_animateByOptions o d).
Proof. intros []. constructor; done. Qed.

Lemma WF_scheduleAnimationFrame d : WF d → WF (scheduleAnimationFrame d).
Proof.
  intros Hwf. unfold scheduleAnimationFrame.
  destruct (animId d) as [h|] eqn:Ha; [done|].
  destruct (window d) eqn:Hw; [|done].
  destruct Hwf. constructor; simpl; try done.
  - rewrite wf_queue0, Ha. done.
  - intros h Hh. injection Hh as <-. done.
  - intros Hw'. congruence.
Qed.

Lemma set_current_schedule o d :
  set_current o (scheduleAnimationFrame d)
  = scheduleAnimationFrame (set_current o d).
Proof.
  unfold scheduleAnimationFrame. simpl.
  destruct (animId d); [done|]. by destruct (window d).
Qed.

Lemma set_state_same c : set_state (state c) c = c.
Proof. by destruct c. Qed.

(** The current entry changes state, to a state other than ['here'], and
    stops being current. *)
Lemma WF_retire d r c st :
  WF d → current d = Some r → heap d !! r = Some c → window d = true →
  st ≠ here →
  WF (set_current None (set_heap (<[r := set_state st c]> (heap d)) d)).
Proof.
  intros [] Hcur Hc Hw Hst. constructor; simpl; try done.
  - intros r'. rewrite <- wf_heap0. destruct (decide (r = r')) as [<-|Hne].
    + rewrite lookup_insert_eq, Hc. split; eauto.
    + by rewrite lookup_insert_ne.
  - intros r' c' Hr'. destruct (decide (r = r')) as [<-|Hne].
    + rewrite lookup_insert_eq. intros [= <-]. done.
    + rewrite lookup_insert_ne by done. intros Hc' Hh.
      destruct (wf_here0 r' c' Hr' Hc' Hh) as [? _]. congruence.
  - intros Hw'. congruence.
Qed.

Lemma WF_newCurrent x d : WF d → current d = None → WF (newCurrent x d).
Proof.
  intros Hwf Hcur. unfold newCurrent.
  set (instant := negb (window d) || negb (inited d)).
  set (context := newAnimateByContext _ _ _).
  set (d1 := set_stack _ _).
  assert (Hwf1 : WF d1).
  { destruct Hwf. constructor; simpl; try done.
    - apply NoDup_app. split_and!; [done| |apply NoDup_singleton].
      intros r Hr ->%list_elem_of_singleton. apply wf_stack0 in Hr. lia.
    - intros r. destruct (decide (nextRef d = r)) as [<-|Hne].
      + rewrite lookup_insert_eq. split; [lia|eauto].
      + rewrite lookup_insert_ne by done. rewrite wf_heap0. lia.
    - intros r [Hr| ->%list_elem_of_singleton]%elem_of_app; [|lia].
      apply wf_stack0 in Hr. lia.
    - intros r [= <-]. apply elem_of_app. right. by apply list_elem_of_singleton.
    - intros r c [Hr| ->%list_elem_of_singleton]%elem_of_app.
      + assert (nextRef d ≠ r) by (apply wf_stack0 in Hr; lia).
        rewrite lookup_insert_ne by done. intros Hc Hh.
        destruct (wf_here0 r c Hr Hc Hh) as [? _]. congruence.
      + rewrite lookup_insert_eq. intros [= <-]. subst context.
        destruct instant; simpl; done.
    - intros r c [= <-]. rewrite lookup_insert_eq. intros [= <-].
      subst context. destruct instant; simpl; auto.
    - by rewrite wf_views0.
    - intros Hw. destruct (wf_nodriver0 Hw) as (Ha & Hl & Hs & Hh).
      rewrite Hcur in Hs. rewrite Hs. split_and!; try done.
      intros r c ->%list_elem_of_singleton. rewrite lookup_insert_eq.
      intros [= <-]. subst context instant. rewrite Hw. done. }
  destruct instant; [done|]. by apply WF_scheduleAnimationFrame.
Qed.

Lemma WF_removeCurrent d : WF d → WF (removeCurrent d).
Proof.
  intros Hwf. unfold removeCurrent.
  destruct (current d) as [r|] eqn:Hcur; [|done].
  destruct (window d) eqn:Hw.
  - assert (Hin : r ∈ stack d) by by apply (wf_current d Hwf).
    destruct (heap d !! r) as [c|] eqn:Hc.
    2:{ apply (wf_stack d Hwf), (wf_heap d Hwf) in Hin.
        rewrite Hc in Hin. by destruct Hin. }
    destruct (decide (state c = here)) as [Hh|Hh].
    { rewrite set_current_schedule. apply WF_scheduleAnimationFrame.
      by apply WF_retire. }
    destruct (_ && _) eqn:Hsym.
    { rewrite set_current_schedule. apply WF_scheduleAnimationFrame.
      by apply WF_retire. }
    pose proof (WF_retire d r c (state c) Hwf Hcur Hc Hw Hh) as H.
    rewrite set_state_same, insert_id in H by done.
    by destruct d.
  - destruct (wf_nodriver d Hwf Hw) as (Ha & Hl & Hs & Hh).
    rewrite Hcur in Hs.
    rewrite removeStackEntry_in;
      [|apply Hwf|apply Hwf|rewrite Hs; by apply list_elem_of_singleton].
    rewrite Hs. simpl. rewrite Nat.eqb_refl. simpl.
    destruct Hwf. constructor; simpl; try done.
    + apply NoDup_nil_2.
    + intros r' Hr'. by apply elem_of_nil in Hr'.
    + intros r' c Hr'. by apply elem_of_nil in Hr'.
    + intros _. split_and!; try done.
      intros r' c Hr'. by apply elem_of_nil in Hr'.
Qed.

Lemma current_removeCurrent d : current (removeCurrent d) = None.
Proof. unfold removeCurrent. by destruct (current d) eqn:Hc. Qed.

Lemma WF_animateBy v d : WF d → WF (animateBy v d).
Proof.
  intros Hwf. unfold animateBy.
  destruct (decide (_ = v)) as [|Hne]; [done|].
  destruct (current d) as [r|] eqn:Hcur.
  - destruct v as [x|]; [|by apply WF_removeCurrent].
    apply WF_newCurrent; [by apply WF_removeCurrent|].
    apply current_removeCurrent.
  - destruct v as [x|]; [|done]. by apply WF_newCurrent.
Qed.

Lemma removes_spec clock d r c :
  heap d !! r = Some c →
  removes clock (current d) (heap d) r
  = (frameContext clock (bool_decide (Some r = current d)) c).2.
Proof.
  intros Hc. unfold removes, frameOf. rewrite Hc. simpl.
  by destruct (frameContext _ _ c) as [[? ?] ?].
Qed.

Lemma asksAnother_spec clock d r c :
  heap d !! r = Some c →
  asksAnother clock (current d) (heap d) r
  = (frameContext clock (bool_decide (Some r = current d)) c).1.2.
Proof.
  intros Hc. unfold asksAnother, frameOf. rewrite Hc. simpl.
  by destruct (frameContext _ _ c) as [[? ?] ?].
Qed.

Lemma WF_lookup d r : WF d → r ∈ stack d → ∃ c, heap d !! r = Some c.
Proof.
  intros Hwf Hr. apply (wf_stack d Hwf), (wf_heap d Hwf) in Hr.
  destruct Hr as [c Hc]. eauto.
Qed.

Lemma WF_frameResult clock d :
  WF d → window d = true → WF (frameResult clock (set_frameQueue [] d)).
Proof.
  intros Hwf Hw.
  assert (Hlk : ∀ r c', frameHeap clock (set_frameQueue [] d) !! r = Some c' →
            ∃ c, heap d !! r = Some c ∧ c' = framed clock d r c).
  { intros r c'. rewrite frameHeap_lookup by apply Hwf. simpl.
    destruct (heap d !! r) as [c|]; simpl; [|done].
    intros [= <-]. eauto. }
  constructor; simpl; try done.
  - apply NoDup_bfilter, Hwf.
  - intros r. rewrite frameHeap_lookup by apply Hwf. simpl.
    rewrite <- (wf_heap d Hwf). apply fmap_is_Some.
  - intros r [Hr _]%elem_of_bfilter. by apply (wf_stack d Hwf).
  - intros r Hcur. apply elem_of_bfilter.
    pose proof (wf_current d Hwf r Hcur) as Hr. split; [done|].
    destruct (WF_lookup d r Hwf Hr) as [c Hc].
    rewrite (removes_spec clock d r c Hc), Hcur.
    rewrite bool_decide_eq_true_2 by done.
    destruct (frameContext_current clock c) as [_ ->]; [|done].
    by apply (wf_current_state d Hwf r).
  - intros r c' [Hr _]%elem_of_bfilter Hc' Hh.
    destruct (Hlk r c' Hc') as (c & Hc & ->). unfold framed in *.
    rewrite bool_decide_eq_true_2 in * by done.
    destruct (frameContext_to_here _ _ _ Hh) as [Hhere|(He & Hb & Ht & Hex)].
    + rewrite frameContext_here by done. simpl.
      by apply (wf_here d Hwf r c).
    + apply bool_decide_eq_true_1 in Hb. done.
  - intros r c' Hcur Hc'.
    destruct (Hlk r c' Hc') as (c & Hc & ->). unfold framed.
    rewrite bool_decide_eq_true_2 by by apply (wf_current d Hwf).
    rewrite bool_decide_eq_true_2 by done.
    apply frameContext_current. by apply (wf_current_state d Hwf r).
  - apply Hwf.
  - intros Hw'. congruence.
Qed.

Lemma WF_runFrame clock d : WF d → WF (runFrame clock d).
Proof.
  intros Hwf. unfold runFrame.
  destruct (frameQueue d) as [|h q] eqn:Hq; [done|].
  pose proof (wf_queue d Hwf) as Hq'. rewrite Hq in Hq'.
  destruct (animId d) as [h'|] eqn:Ha; [|done].
  injection Hq' as -> ->.
  destruct (wf_animId d Hwf h' Ha) as [_ Hw].
  rewrite doAnimationFrame_eq by apply Hwf.
  pose proof (WF_frameResult clock d Hwf Hw) as Hres.
  destruct (frameAsksAnother _ _); [|done].
  by apply WF_scheduleAnimationFrame.
Qed.

Lemma WF_step d e : WF d → WF (step d e).
Proof.
  intros Hwf. destruct e as [el|v|o|clock]; simpl.
  - destruct (inited d) eqn:Hi; [done|]. by apply WF_ngOnInit.
  - by apply WF_animateBy.
  - by apply WF_set_animateByOptions.
  - by apply WF_runFrame.
Qed.

Lemma WF_run evs : ∀ d, WF d → WF (run evs d).
Proof.
  unfold run. induction evs as [|e evs IH]; intros d Hwf; simpl; [done|].
  apply IH. by apply WF_step.
Qed.

Lemma WF_execution evs : WF (run evs newDirective).
Proof. apply WF_run, WF_newDirective. Qed.

End WellFormed.

(** ** At most one entry is ['here'] *)

Section OneHere.

Lemma length_le_1_of_same (l : list ref) (a : ref) :
  NoDup l → (∀ x, x ∈ l → x = a) → length l ≤ 1.
Proof.
  intros Hnd Hall. destruct l as [|x [|y l]]; simpl; [lia..|].
  exfalso. apply NoDup_cons in Hnd as [Hx _]. apply Hx.
  rewrite (Hall x), <- (Hall y); [left|right; left|left].
Qed.

Lemma WF_hereEntries d : WF d → length (hereEntries d) ≤ 1.
Proof.
  intros Hwf. unfold hereEntries.
  assert (Hcur : ∀ x, x ∈ List.filter (stateIs here d) (stack d) →
            current d = Some x).
  { intros x [Hx Hst]%elem_of_bfilter. unfold stateIs, contextOf in Hst.
    destruct (heap d !! x) as [c|] eqn:Hc; [|done].
    apply bool_decide_eq_true_1 in Hst.
    by destruct (wf_here d Hwf x c Hx Hc Hst). }
  destruct (current d) as [r|] eqn:Hc.
  - apply (length_le_1_of_same _ r).
    + apply NoDup_bfilter, Hwf.
    + intros x Hx. specialize (Hcur x Hx). congruence.
  - destruct (List.filter _ _) as [|x l]; simpl; [lia|].
    specialize (Hcur x). discriminate Hcur. left.
Qed.

(** C1.  In every execution of the directive (any sequence of changes of the
    [animateBy] input and of the options, interleaved with any number of
    frames at any clock values, whether [ngOnInit] found a window or not and
    whatever happened before it), at most one entry of the stack is in
    state ['here']. *)
Theorem at_most_one_here (evs : list Event) :
  length (hereEntries (run evs newDirective)) ≤ 1.
Proof. apply WF_hereEntries, WF_execution. Qed.

End OneHere.

(** ** The frame queue *)

Section FrameQueue.

Lemma scheduleAnimationFrame_pending d :
  animId d ≠ None → scheduleAnimationFrame d = d.
Proof. unfold scheduleAnimationFrame. by destruct (animId d). Qed.

(** C8.  In every execution the frame queue of the window holds exactly the
    request the directive remembers in [animId], so at most one request is
    outstanding at any time, also after [ngOnDestroy].  Scheduling does
    nothing while a request is pending, and [doAnimationFrame] clears
    [animId] before anything else: the frame it leaves does not depend on
    the [animId] it was entered with. *)
Theorem never_double_schedule (evs : list Event) :
  let d := run evs newDirective in
  frameQueue d = match animId d with Some h => [h] | None => [] end
  ∧ length (frameQueue d) ≤ 1
  ∧ length (frameQueue (ngOnDestroy d)) ≤ 1
  ∧ (∀ d', animId d' ≠ None → scheduleAnimationFrame d' = d')
  ∧ (∀ clock d',
       doAnimationFrame clock d' = doAnimationFrame clock (set_animId None d')).
Proof.
  intros d. pose proof (WF_execution evs) as Hwf. fold d in Hwf.
  pose proof (wf_queue d Hwf) as Hq.
  assert (Hlen : length (frameQueue d) ≤ 1).
  { rewrite Hq. destruct (animId d); simpl; lia. }
  split_and!; try done.
  - unfold ngOnDestroy. destruct (animId d) as [h|]; [|done].
    destruct (h =? 0); [done|]. destruct (window d); [|done].
    unfold cancelAnimationFrame. simpl.
    etrans; [apply filter_length_le|done].
  - apply scheduleAnimationFrame_pending.
Qed.

(** What [ngOnDestroy] does in an execution: the pending request, if any,
    leaves the frame queue; every other field stays. *)
Lemma ngOnDestroy_spec d :
  WF d →
  frameQueue (ngOnDestroy d) = []
  ∧ ngOnDestroy d = set_frameQueue [] d.
Proof.
  intros Hwf. unfold ngOnDestroy.
  pose proof (wf_queue d Hwf) as Hq.
  destruct (animId d) as [h|] eqn:Ha.
  - destruct (wf_animId d Hwf h Ha) as [Hh Hw].
    destruct (Nat.eqb_spec h 0) as [|_]; [done|]. rewrite Hw.
    unfold cancelAnimationFrame. rewrite Hq. simpl.
    rewrite Nat.eqb_refl. done.
  - rewrite Hq. split; [done|]. destruct d; simpl in *. by subst.
Qed.

(** C7, as the code has it.  [ngOnDestroy] cancels the pending frame
    request, so that no frame runs [doAnimationFrame] afterwards; it leaves
    the stack, the contexts and the view container as they are and asks the
    host for no teardown. *)
Theorem ngOnDestroy_cancels_only (evs : list Event) :
  let d := run evs newDirective in
  let d' := ngOnDestroy d in
  frameQueue d' = []
  ∧ (∀ clock, runFrame clock d' = d')
  ∧ stack d' = stack d
  ∧ heap d' = heap d
  ∧ current d' = current d
  ∧ viewContainer d' = viewContainer d
  ∧ destroyedViews d' = destroyedViews d.
Proof.
  intros d d'. pose proof (WF_execution evs) as Hwf. fold d in Hwf.
  destruct (ngOnDestroy_spec d Hwf) as [Hq Heq]. fold d' in Hq, Heq.
  split_and!; try (by rewrite Heq); try done.
  all: intros clock; unfold runFrame; by rewrite Hq.
Qed.

(** C7, as the specification has it, fails: after [ngOnInit] with a window
    and one change of the input, the stack holds one entry; [ngOnDestroy]
    leaves the entry in the stack and its view in the view container, and
    no teardown is logged, so it is not the case that every entry is
    released and its view torn down. *)
Lemma ngOnDestroy_keeps_instances :
  let d := run [Init (Document true); SetAnimateBy (Some 7)] newDirective in
  stack d = [0]
  ∧ stack (ngOnDestroy d) = [0]
  ∧ viewContainer (ngOnDestroy d) = [0]
  ∧ destroyedViews (ngOnDestroy d) = []
  ∧ ¬ (stack (ngOnDestroy d) = []
       ∧ destroyedViews (ngOnDestroy d) = destroyedViews d ++ stack d).
Proof. vm_compute. split_and!; try done. by intros [? _]. Qed.

End FrameQueue.

(** ** Without a window *)

Section NoDriver.

Lemma window_scheduleAnimationFrame d :
  window (scheduleAnimationFrame d) = window d.
Proof.
  unfold scheduleAnimationFrame. destruct (animId d); [done|].
  by destruct (window d) eqn:Hw.
Qed.

(** What a directive without a window looks like: no frame was ever
    requested, and the stack is the current entry, which is ['here'] with
    full existence. *)
Lemma nodriver_shape d :
  WF d → window d = false →
  animId d = None ∧ frameQueue d = [] ∧ lastFrameId d = 0
  ∧ viewContainer d = stack d
  ∧ match current d with
    | Some r => stack d = [r]
                ∧ ∃ c, heap d !! r = Some c ∧ state c = here
                       ∧ existence c = Fin 1 ∧ startTime c = None
    | None => stack d = []
    end.
Proof.
  intros Hwf Hw. destruct (wf_nodriver d Hwf Hw) as (Ha & Hl & Hs & Hh).
  pose proof (wf_queue d Hwf) as Hq. rewrite Ha in Hq.
  split_and!; try done; try apply Hwf.
  destruct (current d) as [r|] eqn:Hcur; [|done]. split; [done|].
  assert (Hr : r ∈ stack d) by (rewrite Hs; by apply list_elem_of_singleton).
  destruct (WF_lookup d r Hwf Hr) as [c Hc]. exists c.
  pose proof (Hh r c Hr Hc) as Hst.
  destruct (wf_here d Hwf r c Hr Hc Hst) as (_ & ? & ?). done.
Qed.

(** Setting a defined input without a window: either the input is the
    current one and nothing happens, or the current entry, if any, is
    removed from the stack at once, its view is torn down, and a fresh
    entry takes its place. *)
Lemma nodriver_animateBy d x :
  WF d → window d = false →
  let d1 := animateBy (Some x) d in
  window d1 = false
  ∧ ((d1 = d ∧ ∃ r c, current d = Some r ∧ heap d !! r = Some c
                      ∧ implicit c = x)
     ∨ (current d1 = Some (nextRef d)
        ∧ stack d1 = [nextRef d]
        ∧ viewContainer d1 = [nextRef d]
        ∧ destroyedViews d1 = destroyedViews d ++ stack d
        ∧ (∃ c, heap d1 !! nextRef d = Some c ∧ implicit c = x
                ∧ state c = here ∧ existence c = Fin 1))).
Proof.
  intros Hwf Hw d1.
  destruct (nodriver_shape d Hwf Hw) as (Ha & Hq & Hl & Hv & Hshape).
  subst d1. unfold animateBy.
  destruct (decide (_ = Some x)) as [Heq|Hne].
  { split; [done|]. left. split; [done|].
    destruct (current d) as [r|]; [|done].
    destruct (heap d !! r) as [c|] eqn:Hc; [|done].
    injection Heq as <-. eauto. }
  destruct (current d) as [r|] eqn:Hcur.
  - destruct Hshape as (Hs & c & Hc & Hst & He & Ht).
    unfold removeCurrent. rewrite Hcur, Hw.
    rewrite removeStackEntry_in;
      [|apply Hwf|done|rewrite Hs; by apply list_elem_of_singleton].
    rewrite Hs. unfold newCurrent. simpl. rewrite Hw, Nat.eqb_refl. simpl.
    split; [done|]. right. split_and!; try done.
    eexists. rewrite lookup_insert_eq. done.
  - unfold newCurrent. rewrite Hw. simpl. rewrite Hv, Hshape. simpl.
    split; [done|]. right. split_and!; try done.
    + by rewrite app_nil_r.
    + eexists. rewrite lookup_insert_eq. done.
Qed.

(** C6.  In an execution in which no window was found, setting the input to
    [x] and then to a different [y] leaves the entry for [x] alone in the
    stack, then the entry for [y] alone in the stack: both are created
    ['here'] with existence [1]; the entry for [x] leaves the stack and the
    view container within the second call, its view is torn down, and the
    window was never asked for a frame. *)
Theorem no_driver_is_synchronous (evs : list Event) (x y : value) :
  let d := run evs newDirective in
  window d = false → x ≠ y →
  let d1 := animateBy (Some x) d in
  let d2 := animateBy (Some y) d1 in
  ∃ rx ry cx cy,
    stack d1 = [rx] ∧ contextOf d1 rx = Some cx
    ∧ implicit cx = x ∧ state cx = here ∧ existence cx = Fin 1
    ∧ stack d2 = [ry] ∧ contextOf d2 ry = Some cy
    ∧ implicit cy = y ∧ state cy = here ∧ existence cy = Fin 1
    ∧ rx ≠ ry
    ∧ viewContainer d2 = [ry]
    ∧ destroyedViews d2 = destroyedViews d1 ++ [rx]
    ∧ frameQueue d1 = [] ∧ frameQueue d2 = []
    ∧ animId d2 = None ∧ lastFrameId d2 = 0.
Proof.
  intros d Hw Hxy d1 d2.
  pose proof (WF_execution evs) as Hwf. fold d in Hwf.
  assert (Hwf1 : WF d1) by by apply WF_animateBy.
  assert (Hwf2 : WF d2) by by apply WF_animateBy.
  destruct (nodriver_animateBy d x Hwf Hw) as [Hw1 H1]. fold d1 in Hw1, H1.
  destruct (nodriver_animateBy d1 y Hwf1 Hw1) as [Hw2 H2]. fold d2 in Hw2, H2.
  destruct (nodriver_shape d1 Hwf1 Hw1) as (Ha1 & Hq1 & Hl1 & Hv1 & Hs1).
  destruct (nodriver_shape d2 Hwf2 Hw2) as (Ha2 & Hq2 & Hl2 & Hv2 & Hs2).
  assert (Hcx : ∃ rx cx, current d1 = Some rx ∧ heap d1 !! rx = Some cx
                         ∧ implicit cx = x).
  { destruct H1 as [[-> (r & c & ? & ? & ?)]|(Hc & _ & _ & _ & c & ? & ? & _)];
      eauto. }
  destruct Hcx as (rx & cx & Hcur1 & Hcx & Hix).
  rewrite Hcur1 in Hs1. destruct Hs1 as (Hs1 & cx' & Hcx' & Hstx & Hex & _).
  assert (cx' = cx) as -> by congruence.
  destruct H2 as [[Heq (r & c & Hr & Hc & Hi)]
                 |(Hcur2 & Hst2 & Hvc2 & Hd2 & cy & Hcy & Hiy & Hsty & Hey)].
  { exfalso. apply Hxy. congruence. }
  exists rx, (nextRef d1), cx, cy. unfold contextOf.
  split_and!; try done.
  - assert (rx < nextRef d1); [|lia].
    apply (wf_stack d1 Hwf1). rewrite Hs1. by apply list_elem_of_singleton.
  - by rewrite Hd2, Hs1.
Qed.

End NoDriver.

(** ** The contexts along an execution *)

Section Contexts.

Lemma heap_scheduleAnimationFrame d :
  heap (scheduleAnimationFrame d) = heap d.
Proof.
  unfold scheduleAnimationFrame. destruct (animId d); [done|].
  by destruct (window d).
Qed.

Lemma fixed_scheduleAnimationFrame d :
  animateByOptions (scheduleAnimationFrame d) = animateByOptions d
  ∧ stack (scheduleAnimationFrame d) = stack d
  ∧ current (scheduleAnimationFrame d) = current d
  ∧ inited (scheduleAnimationFrame d) = inited d
  ∧ nextRef (scheduleAnimationFrame d) = nextRef d.
Proof.
  unfold scheduleAnimationFrame. destruct (animId d); [done|].
  by destruct (window d).
Qed.

Lemma removeCurrent_lookup d r c :
  WF d → heap d !! r = Some c →
  heap (removeCurrent d) !! r
  = Some (if bool_decide (current d = Some r) then retire d c else c).
Proof.
  intros Hwf Hc. unfold removeCurrent, retire.
  destruct (current d) as [r0|] eqn:Hcur; [|done].
  destruct (window d) eqn:Hw; simpl.
  - destruct (decide (r0 = r)) as [->|Hne].
    + rewrite bool_decide_eq_true_2 by done. rewrite Hc.
      destruct (decide (state c = here)).
      { simpl. rewrite heap_scheduleAnimationFrame. simpl.
        by rewrite lookup_insert_eq. }
      destruct (_ && _).
      { simpl. rewrite heap_scheduleAnimationFrame. simpl.
        by rewrite lookup_insert_eq. }
      done.
    + rewrite bool_decide_eq_false_2 by congruence.
      destruct (heap d !! r0) as [c0|]; [|done].
      destruct (decide (state c0 = here)).
      { simpl. rewrite heap_scheduleAnimationFrame. simpl.
        by rewrite lookup_insert_ne. }
      destruct (_ && _).
      { simpl. rewrite heap_scheduleAnimationFrame. simpl.
        by rewrite lookup_insert_ne. }
      done.
  - rewrite Hc. by destruct (bool_decide _).
Qed.

Lemma removeCurrent_fixed d :
  animateByOptions (removeCurrent d) = animateByOptions d
  ∧ window (removeCurrent d) = window d
  ∧ inited (removeCurrent d) = inited d
  ∧ nextRef (removeCurrent d) = nextRef d
  ∧ ∀ r, heap (removeCurrent d) !! r = None ↔ heap d !! r = None.
Proof.
  unfold removeCurrent. destruct (current d) as [r0|] eqn:Hcur; [|done].
  destruct (window d) eqn:Hw; simpl; [|done].
  destruct (heap d !! r0) as [c0|] eqn:Hc0; [|by rewrite Hw].
  assert (Hnone : ∀ st r, <[r0 := set_state st c0]> (heap d) !! r = None
                          ↔ heap d !! r = None).
  { intros st r. destruct (decide (r0 = r)) as [<-|Hne].
    - rewrite lookup_insert_eq, Hc0. done.
    - by rewrite lookup_insert_ne. }
  destruct (decide (state c0 = here)).
  { destruct (fixed_scheduleAnimationFrame
                (set_heap (<[r0:=set_state leaving c0]> (heap d)) d))
      as (-> & _ & _ & -> & ->).
    rewrite window_scheduleAnimationFrame, heap_scheduleAnimationFrame.
    simpl. by rewrite Hw. }
  destruct (_ && _); [|by rewrite Hw].
  destruct (fixed_scheduleAnimationFrame
              (set_heap (<[r0:=set_state reverse c0]> (heap d)) d))
    as (-> & _ & _ & -> & ->).
  rewrite window_scheduleAnimationFrame, heap_scheduleAnimationFrame.
  simpl. by rewrite Hw.
Qed.

Lemma newCurrent_heap x d :
  heap (newCurrent x d) = <[nextRef d := freshContext x d]> (heap d)
  ∧ animateByOptions (newCurrent x d) = animateByOptions d
  ∧ window (newCurrent x d) = window d
  ∧ inited (newCurrent x d) = inited d
  ∧ nextRef (newCurrent x d) = S (nextRef d)
  ∧ current (newCurrent x d) = Some (nextRef d)
  ∧ stack (newCurrent x d) = stack d ++ [nextRef d].
Proof.
  unfold newCurrent, freshContext.
  destruct (negb (window d) || negb (inited d)); [done|].
  rewrite heap_scheduleAnimationFrame, window_scheduleAnimationFrame.
  match goal with
  | |- context [scheduleAnimationFrame ?d'] =>
      destruct (fixed_scheduleAnimationFrame d') as (-> & -> & -> & -> & ->)
  end.
  done.
Qed.

(** A change of the input on the contexts that are there. *)
Lemma animateBy_lookup v d r c :
  WF d → heap d !! r = Some c →
  heap (animateBy v d) !! r = Some (retiredBy v d r c).
Proof.
  intros Hwf Hc. unfold animateBy, retiredBy.
  assert (Hr : r < nextRef d) by (apply (wf_heap d Hwf); eauto).
  destruct (decide (_ = v)) as [Heq|Hne].
  { rewrite bool_decide_eq_false_2; [done|]. intros [Hcur Hv].
    rewrite Hcur, Hc in Heq. simpl in Heq. congruence. }
  destruct (current d) as [r0|] eqn:Hcur.
  - assert (Hret : heap (removeCurrent d) !! r
                   = Some (if bool_decide (Some r0 = Some r ∧ Some (implicit c) ≠ v)
                           then retire d c else c)).
    { rewrite (removeCurrent_lookup d r c Hwf Hc), Hcur.
      destruct (decide (r0 = r)) as [->|Hne'].
      - rewrite Hc in Hne. simpl in Hne.
        rewrite !bool_decide_eq_true_2; done.
      - rewrite !bool_decide_eq_false_2; [done| |congruence].
        intros [? _]. congruence. }
    destruct v as [x|]; [|done].
    destruct (newCurrent_heap x (removeCurrent d)) as (-> & _).
    destruct (removeCurrent_fixed d) as (_ & _ & _ & -> & _).
    rewrite lookup_insert_ne by lia. done.
  - rewrite bool_decide_eq_false_2 by (intros [? _]; done).
    destruct v as [x|]; [|done].
    destruct (newCurrent_heap x d) as (-> & _).
    rewrite lookup_insert_ne by lia. done.
Qed.

(** A change of the input on the addresses that are free: only the next
    address is taken, by a fresh context. *)
Lemma animateBy_lookup_new v d r c :
  WF d → heap d !! r = None → heap (animateBy v d) !! r = Some c →
  r = nextRef d ∧ ∃ x, v = Some x ∧ c = freshContext x d.
Proof.
  intros Hwf Hnone. unfold animateBy.
  destruct (decide (_ = v)) as [Heq|Hne]; [congruence|].
  assert (Hfresh : ∀ x, freshContext x (removeCurrent d) = freshContext x d).
  { intros x. unfold freshContext.
    by destruct (removeCurrent_fixed d) as (-> & -> & -> & _ & _). }
  assert (Hnone' : heap (removeCurrent d) !! r = None).
  { by apply (removeCurrent_fixed d). }
  destruct (current d) as [r0|] eqn:Hcur.
  - destruct v as [x|]; [|congruence].
    destruct (newCurrent_heap x (removeCurrent d)) as (-> & _).
    destruct (removeCurrent_fixed d) as (_ & _ & _ & -> & _).
    destruct (decide (nextRef d = r)) as [<-|Hne'].
    + rewrite lookup_insert_eq. intros [= <-]. rewrite Hfresh. eauto.
    + rewrite lookup_insert_ne by done. congruence.
  - destruct v as [x|]; [|congruence].
    destruct (newCurrent_heap x d) as (-> & _).
    destruct (decide (nextRef d = r)) as [<-|Hne'].
    + rewrite lookup_insert_eq. intros [= <-]. eauto.
    + rewrite lookup_insert_ne by done. congruence.
Qed.

Lemma animateBy_fixed v d :
  animateByOptions (animateBy v d) = animateByOptions d
  ∧ window (animateBy v d) = window d
  ∧ inited (animateBy v d) = inited d.
Proof.
  unfold animateBy. destruct (decide (_ = v)); [done|].
  destruct (removeCurrent_fixed d) as (Ho & Hw & Hi & _).
  destruct (current d); destruct v as [x|]; try done.
  - destruct (newCurrent_heap x (removeCurrent d)) as (_ & -> & -> & -> & _).
    done.
  - destruct (newCurrent_heap x d) as (_ & -> & -> & -> & _). done.
Qed.

(** A frame of the window on the contexts. *)
Lemma runFrame_lookup clock d r :
  WF d →
  heap (runFrame clock d) !! r = framedBy clock d r <$> heap d !! r.
Proof.
  intros Hwf. unfold runFrame, framedBy.
  destruct (frameQueue d) as [|h q] eqn:Hq.
  { rewrite bool_decide_eq_true_2 by done. by destruct (heap d !! r). }
  rewrite bool_decide_eq_false_2 by done.
  rewrite doAnimationFrame_eq by apply Hwf.
  assert (Hheap : ∀ d', heap (if frameAsksAnother clock (set_frameQueue q d)
                             then scheduleAnimationFrame d' else d')
                        = heap d').
  { intros d'. destruct (frameAsksAnother _ _); [|done].
    apply heap_scheduleAnimationFrame. }
  rewrite Hheap. simpl.
  rewrite frameHeap_lookup by apply Hwf. done.
Qed.

Lemma runFrame_fixed clock d :
  WF d →
  animateByOptions (runFrame clock d) = animateByOptions d
  ∧ window (runFrame clock d) = window d
  ∧ inited (runFrame clock d) = inited d
  ∧ current (runFrame clock d) = current d
  ∧ nextRef (runFrame clock d) = nextRef d.
Proof.
  intros Hwf. unfold runFrame.
  destruct (frameQueue d) as [|h q] eqn:Hq; [done|].
  rewrite doAnimationFrame_eq by apply Hwf.
  destruct (frameAsksAnother _ _); [|done].
  rewrite window_scheduleAnimationFrame.
  match goal with
  | |- context [scheduleAnimationFrame ?d'] =>
      destruct (fixed_scheduleAnimationFrame d') as (-> & _ & -> & -> & ->)
  end.
  done.
Qed.

End Contexts.

(** ** Arithmetic of the two progress formulas *)

Section Progress.

Open Scope Q_scope.

Lemma sub_fin a b : (Fin a - Fin b)%js = Fin (a - b).
Proof. done. Qed.

Lemma mul_fin a b : (Fin a * Fin b)%js = Fin (a * b).
Proof. done. Qed.

Lemma div_fin a b : ¬ b == 0 → (Fin a / Fin b)%js = Fin (a / b).
Proof.
  intros Hb. unfold JsNumber.div.
  destruct (Qeq_bool b 0) eqn:H; [|done].
  apply Qeq_bool_iff in H. done.
Qed.

Lemma min_one_fin z :
  JsNumber.min (Fin 1) (Fin z) = if Qle_bool 1 z then Fin 1 else Fin z.
Proof. done. Qed.

Lemma Qle_bool_false x y : Qle_bool x y = false → y < x.
Proof.
  intros H. apply Qnot_le_lt. intros Hle.
  apply Qle_bool_iff in Hle. congruence.
Qed.

Lemma Qdiv_nonneg a b : 0 <= a → 0 < b → 0 <= a / b.
Proof. intros Ha Hb. apply Qle_shift_div_l; [done|]. lra. Qed.

Lemma Qdiv_mono a a' b : a <= a' → 0 < b → a / b <= a' / b.
Proof.
  intros Ha Hb. unfold Qdiv. apply Qmult_le_compat_r; [done|].
  apply Qlt_le_weak, Qinv_lt_0_compat, Hb.
Qed.

(** The enter formula [min(1, elapsed / duration)], on finite numbers. *)
Lemma enter_progress clock t dur :
  0 < dur →
  ∃ e, JsNumber.min (Fin 1) ((Fin clock - Fin t) / Fin dur)%js = Fin e
       ∧ e <= 1
       ∧ (t <= clock → 0 <= e)
       ∧ (e == 1 ∨ e == (clock - t) / dur ∧ (clock - t) / dur < 1)
       ∧ (1 <= (clock - t) / dur → e == 1).
Proof.
  intros Hd. rewrite sub_fin, div_fin, min_one_fin by lra.
  destruct (Qle_bool 1 ((clock - t) / dur)) eqn:Hle.
  - exists 1.
    split_and!; [done|lra|intros; lra|by left|intros; reflexivity].
  - apply Qle_bool_false in Hle. eexists.
    split_and!; [done|lra| |right; split; [reflexivity|done]|lra].
    intros Ht. apply Qdiv_nonneg; lra.
Qed.

End Progress.

(** ** The existence stays in the unit interval *)

Section UnitInterval.

Open Scope Q_scope.

Lemma startedBy_mono last q t :
  match last with Some l => l <= q | None => True end →
  startedBy last t → startedBy (Some q) t.
Proof.
  intros Hl. destruct t as [[t| | |]|]; simpl; try done.
  destruct last as [l|]; [|done]. lra.
Qed.

Lemma timedContext_mono last q c :
  match last with Some l => l <= q | None => True end →
  timedContext last c → timedContext (Some q) c.
Proof.
  intros Hl (Ht & He & Hs). split_and!; try done.
  by apply (startedBy_mono last).
Qed.

(** The numbers of a context under positive durations are finite. *)
Lemma timedContext_fin last c :
  timedContext last c →
  ∃ en lv x,
    enter (timings c) = Fin en ∧ leave (timings c) = Fin lv
    ∧ existence c = Fin x ∧ 0 < en ∧ 0 < lv ∧ 0 <= x ∧ x <= 1.
Proof.
  intros ((Hen & Hlv) & He & _).
  destruct (enter (timings c)) as [en| | |]; simpl in Hen; try contradiction.
  destruct (leave (timings c)) as [lv| | |]; simpl in Hlv; try contradiction.
  destruct (existence c) as [x| | |]; simpl in He; try contradiction.
  destruct He. exists en, lv, x. by split_and!.
Qed.

(** The start time a turn of the loop works with. *)
Lemma started_default last q t :
  match last with Some l => l <= q | None => True end →
  startedBy last t →
  ∃ t', default (Fin q) t = Fin t' ∧ t' <= q.
Proof.
  intros Hl Hs. destruct t as [[t| | |]|]; simpl in *; try done.
  - exists t. split; [done|]. destruct last as [l|]; [lra|done].
  - exists q. split; [done|lra].
Qed.

Lemma frameContext_timed last q b c :
  match last with Some l => l <= q | None => True end →
  timedContext last c →
  timedContext (Some q) (frameContext (Fin q) b c).1.1.
Proof.
  intros Hl Hc. pose proof Hc as (_ & _ & Hs).
  destruct (started_default last q (startTime c) Hl Hs) as (t & Ht & Htq).
  destruct (timedContext_fin last c Hc)
    as (en & lv & x & Een & Elv & Eex & Hen & Hlv & Hx0 & Hx1).
  unfold timedContext, positiveTimings.
  destruct (frameContext_fixed (Fin q) b c) as [_ ->].
  rewrite Een, Elv. simpl.
  destruct (state c) eqn:Hst.
  - rewrite frameContext_entering by done. cbv zeta. rewrite Ht, Een.
    destruct (enter_progress q t en Hen) as (e & -> & Hle & Hge & _).
    destruct (_ >=? _)%js; simpl; split_and!; try done; auto.
  - rewrite frameContext_leaving by done. cbv zeta. rewrite Ht, Elv.
    destruct (enter_progress q t lv Hlv) as (e & -> & Hle & Hge & _).
    rewrite sub_fin. simpl. specialize (Hge Htq).
    split_and!; try done; lra.
  - rewrite frameContext_here by done. simpl. rewrite Eex.
    split_and!; try done. by apply (startedBy_mono last).
  - rewrite frameContext_reverse by done. cbv zeta. rewrite Elv, Eex.
    rewrite (sub_fin 1 x), mul_fin, (sub_fin q (lv * (1 - x))).
    assert (Hprod : 0 <= lv * (1 - x)).
    { apply Qmult_le_0_compat; lra. }
    destruct (enter_progress q (q - lv * (1 - x)) lv Hlv)
      as (e & -> & Hle & Hge & _).
    rewrite sub_fin. simpl.
    assert (0 <= e) by (apply Hge; lra).
    split_and!; try done; lra.
Qed.

Lemma freshContext_timed last x d :
  positiveOptions (animateByOptions d) → timedContext last (freshContext x d).
Proof.
  unfold positiveOptions, freshContext, timedContext, positiveTimings.
  intros Ho.
  destruct (AnimateByOptions.timings (animateByOptions d)) as [[en lv]|];
    destruct (negb (window d) || negb (inited d)); simpl in *;
    split_and!; try done; try apply Ho.
Qed.

Lemma Timed_animateBy last v d :
  WF d → Timed last d → Timed last (animateBy v d).
Proof.
  intros Hwf [Ho Hh]. split.
  - by destruct (animateBy_fixed v d) as (-> & _).
  - intros r c' Hc'. destruct (heap d !! r) as [c|] eqn:Hc.
    + rewrite (animateBy_lookup v d r c Hwf Hc) in Hc'.
      injection Hc' as <-. unfold retiredBy, retire.
      specialize (Hh r c Hc).
      repeat match goal with
             | |- context [if ?b then _ else _] => destruct b
             end; done.
    + destruct (animateBy_lookup_new v d r c' Hwf Hc Hc')
        as (_ & x & _ & ->).
      by apply freshContext_timed.
Qed.

Lemma Timed_runFrame last q d :
  WF d → match last with Some l => l <= q | None => True end →
  Timed last d → Timed (Some q) (runFrame (Fin q) d).
Proof.
  intros Hwf Hl [Ho Hh]. split.
  - by destruct (runFrame_fixed (Fin q) d Hwf) as (-> & _).
  - intros r c'. rewrite runFrame_lookup by done.
    destruct (heap d !! r) as [c|] eqn:Hc; simpl; [|done].
    intros [= <-]. specialize (Hh r c Hc). unfold framedBy, framed.
    destruct (bool_decide (frameQueue d = []));
      [by apply (timedContext_mono last)|].
    destruct (bool_decide (r ∈ stack d));
      [|by apply (timedContext_mono last)].
    by apply (frameContext_timed last).
Qed.

Lemma Timed_run evs : ∀ last d,
  WF d → validEvents last evs → Timed last d →
  Timed (lastClock last evs) (run evs d).
Proof.
  induction evs as [|e evs IH]; intros last d Hwf Hv Ht; [done|].
  assert (Hwf' : WF (step d e)) by by apply WF_step.
  destruct e as [el|v|o|[q| | |]]; simpl in *; try done.
  - apply IH; try done. destruct Ht as [Ho Hh].
    destruct (inited d); [done|]. by destruct el.
  - apply IH; try done. by apply Timed_animateBy.
  - destruct Hv as [Ho Hv]. apply IH; try done. by destruct Ht.
  - destruct Hv as [Hq Hv]. apply IH; try done.
    by apply (Timed_runFrame last).
Qed.

Lemma Timed_newDirective : Timed None newDirective.
Proof.
  split.
  - unfold positiveOptions, positiveTimings. simpl. lra.
  - intros r c. simpl. by rewrite lookup_empty.
Qed.

(** C5.  In an execution whose options give positive durations and whose
    frames carry finite time stamps that never decrease, the existence of
    every entry of the stack is a finite number between [0] and [1], after
    the creation of the entry and after every event.  A context is created
    with existence [0] when entering and [1] when here. *)
Theorem existence_in_unit_interval (evs : list Event) (r : ref)
    (c : AnimateByContext) :
  validEvents None evs →
  r ∈ stack (run evs newDirective) →
  contextOf (run evs newDirective) r = Some c →
  JsNumber.between 0 1 (existence c)
  ∧ (∀ v tm, existence (newAnimateByContext v entering tm) = Fin 0
             ∧ existence (newAnimateByContext v here tm) = Fin 1).
Proof.
  intros Hv _ Hc. split; [|done].
  destruct (Timed_run evs None newDirective WF_newDirective Hv
              Timed_newDirective) as [_ Hh].
  by destruct (Hh r c Hc) as (_ & He & _).
Qed.

End UnitInterval.

(** ** A frame is pending while an animation runs *)

Section PendingFrame.

Lemma animId_scheduleAnimationFrame d :
  window d = true → animId (scheduleAnimationFrame d) ≠ None.
Proof.
  intros Hw. unfold scheduleAnimationFrame.
  destruct (animId d) eqn:Ha; [by rewrite Ha|]. by rewrite Hw.
Qed.

Lemma Pending_trivial d : animId d ≠ None → Pending d.
Proof. intros Ha r c _ _ _. done. Qed.

Lemma Pending_removeCurrent d : WF d → Pending d → Pending (removeCurrent d).
Proof.
  intros Hwf Hp. unfold removeCurrent.
  destruct (current d) as [r0|] eqn:Hcur; [|done].
  destruct (window d) eqn:Hw.
  - destruct (heap d !! r0) as [c0|] eqn:Hc0; [|done].
    destruct (decide (state c0 = here)).
    { apply Pending_trivial. simpl. by apply animId_scheduleAnimationFrame. }
    destruct (_ && _); [|done].
    apply Pending_trivial. simpl. by apply animId_scheduleAnimationFrame.
  - destruct (nodriver_shape d Hwf Hw) as (_ & _ & _ & Hv & Hs).
    rewrite Hcur in Hs. destruct Hs as [Hs _].
    rewrite removeStackEntry_in;
      [|apply Hwf|done|rewrite Hs; by apply list_elem_of_singleton].
    rewrite Hs. simpl. rewrite Nat.eqb_refl. simpl.
    intros r c Hr. by apply elem_of_nil in Hr.
Qed.

Lemma Pending_newCurrent x d : WF d → Pending d → Pending (newCurrent x d).
Proof.
  intros Hwf Hp. unfold newCurrent.
  destruct (negb (window d) || negb (inited d)) eqn:Hi.
  - intros r c. simpl.
    intros [Hr| ->%list_elem_of_singleton]%elem_of_app.
    + rewrite lookup_insert_ne by (apply (wf_stack d Hwf) in Hr; lia).
      by apply Hp.
    + rewrite lookup_insert_eq. intros [= <-]. done.
  - apply Pending_trivial, animId_scheduleAnimationFrame. simpl.
    by destruct (window d).
Qed.

Lemma Pending_animateBy v d : WF d → Pending d → Pending (animateBy v d).
Proof.
  intros Hwf Hp. unfold animateBy.
  destruct (decide (_ = v)); [done|].
  assert (WF (removeCurrent d)) by by apply WF_removeCurrent.
  assert (Pending (removeCurrent d)) by by apply Pending_removeCurrent.
  destruct (current d); destruct v as [x|]; try done;
    by apply Pending_newCurrent.
Qed.

Lemma runFrame_eq clock d :
  WF d → frameQueue d ≠ [] →
  runFrame clock d
  = if frameAsksAnother clock d
    then scheduleAnimationFrame (frameResult clock (set_frameQueue [] d))
    else frameResult clock (set_frameQueue [] d).
Proof.
  intros Hwf Hq. unfold runFrame.
  pose proof (wf_queue d Hwf) as Hq'.
  destruct (frameQueue d) as [|h q]; [done|].
  destruct (animId d); [|done]. injection Hq' as -> ->.
  by rewrite doAnimationFrame_eq by apply Hwf.
Qed.

Lemma runFrame_window d :
  WF d → frameQueue d ≠ [] → window d = true.
Proof.
  intros Hwf Hq. pose proof (wf_queue d Hwf) as Hq'.
  destruct (animId d) as [h|] eqn:Ha; [|done].
  by destruct (wf_animId d Hwf h Ha).
Qed.

Lemma runFrame_stack clock d :
  WF d → frameQueue d ≠ [] →
  stack (runFrame clock d)
  = List.filter (fun r => negb (removes clock (current d) (heap d) r))
      (stack d).
Proof.
  intros Hwf Hq. rewrite runFrame_eq by done.
  destruct (frameAsksAnother clock d); [|done].
  by destruct (fixed_scheduleAnimationFrame
                 (frameResult clock (set_frameQueue [] d))) as (_ & -> & _).
Qed.

Lemma runFrame_asks clock d :
  WF d → frameQueue d ≠ [] → frameAsksAnother clock d = true →
  animId (runFrame clock d) ≠ None ∧ frameQueue (runFrame clock d) ≠ [].
Proof.
  intros Hwf Hq Hasks.
  assert (Ha : animId (runFrame clock d) ≠ None).
  { rewrite runFrame_eq, Hasks by done.
    apply animId_scheduleAnimationFrame. simpl. by apply runFrame_window. }
  split; [done|].
  rewrite (wf_queue _ (WF_runFrame clock d Hwf)).
  by destruct (animId (runFrame clock d)).
Qed.

Lemma Pending_runFrame clock d : WF d → Pending d → Pending (runFrame clock d).
Proof.
  intros Hwf Hp.
  destruct (decide (frameQueue d = [])) as [Hq|Hq].
  { unfold runFrame. by rewrite Hq. }
  destruct (frameAsksAnother clock d) eqn:Hasks.
  { apply Pending_trivial. by apply runFrame_asks. }
  intros r c'. rewrite runFrame_stack, runFrame_lookup by done.
  intros [Hr Hrm]%elem_of_bfilter.
  destruct (WF_lookup d r Hwf Hr) as [c Hc]. rewrite Hc. simpl.
  intros [= <-]. unfold framedBy, framed.
  rewrite bool_decide_eq_false_2, bool_decide_eq_true_2 by done.
  intros Hst. exfalso.
  rewrite (removes_spec clock d r c Hc) in Hrm.
  destruct (frameContext_another clock (bool_decide (Some r = current d)) c)
    as [Ha|[Hrm'|Hh]]; try done.
  - intros Hh. rewrite frameContext_here in Hst by done. done.
  - assert (frameAsksAnother clock d = true); [|congruence].
    apply existsb_exists. exists r. split; [by apply list_elem_of_In|].
    by rewrite (asksAnother_spec clock d r c Hc).
  - rewrite Hrm' in Hrm. done.
Qed.

Lemma Pending_step d e : WF d → Pending d → Pending (step d e).
Proof.
  intros Hwf Hp. destruct e as [el|v|o|clock]; simpl.
  - destruct (inited d); [done|]. by destruct el.
  - by apply Pending_animateBy.
  - done.
  - by apply Pending_runFrame.
Qed.

Lemma Pending_run evs : ∀ d, WF d → Pending d → Pending (run evs d).
Proof.
  induction evs as [|e evs IH]; intros d Hwf Hp; [done|].
  apply IH; [by apply WF_step|by apply Pending_step].
Qed.

Lemma Pending_execution evs : Pending (run evs newDirective).
Proof.
  apply Pending_run; [apply WF_newDirective|].
  intros r c Hr. by apply elem_of_nil in Hr.
Qed.

(** The frame queue is not empty while an entry of the stack is not
    ['here']. *)
Lemma pending_frame d r c :
  WF d → Pending d → r ∈ stack d → heap d !! r = Some c → state c ≠ here →
  frameQueue d ≠ [].
Proof.
  intros Hwf Hp Hr Hc Hst. rewrite (wf_queue d Hwf).
  pose proof (Hp r c Hr Hc Hst). by destruct (animId d).
Qed.

End PendingFrame.

(** ** Between two frames *)

Section BetweenFrames.

Lemma retire_Retired d c : Retired c (retire d c).
Proof.
  unfold Retired, retire. destruct (window d); [|by left].
  destruct (decide (state c = here)); [right; by left|].
  destruct (AnimateByOptions.symmetric _); simpl; [|by left].
  destruct (decide (state c = entering)).
  - rewrite bool_decide_eq_true_2 by done. right. by right.
  - rewrite bool_decide_eq_false_2 by done. by left.
Qed.

Lemma Retired_step d e r c :
  WF d → isFrame e = false → heap d !! r = Some c →
  ∃ c', heap (step d e) !! r = Some c' ∧ Retired c c'.
Proof.
  intros Hwf He Hc. destruct e as [el|v|o|clock]; simpl in *; try done.
  - exists c. split; [|by left]. destruct (inited d); [done|]. by destruct el.
  - exists (retiredBy v d r c). split; [by apply animateBy_lookup|].
    unfold retiredBy. destruct (bool_decide _); [|by left].
    apply retire_Retired.
  - exists c. split; [done|by left].
Qed.

Lemma Retired_trans c c' c'' : Retired c c' → Retired c' c'' → Retired c c''.
Proof.
  unfold Retired.
  intros [->|[[Hh ->]|[He ->]]] [->|[[Hh' ->]|[He' ->]]]; simpl in *; auto;
    congruence.
Qed.

Lemma Retired_run mid : ∀ d r c,
  WF d → forallb (fun e => negb (isFrame e)) mid = true →
  heap d !! r = Some c →
  ∃ c', heap (run mid d) !! r = Some c' ∧ Retired c c'.
Proof.
  induction mid as [|e mid IH]; intros d r c Hwf Hmid Hc; simpl in *.
  - exists c. split; [done|by left].
  - apply andb_true_iff in Hmid as [He Hmid].
    apply negb_true_iff in He.
    destruct (Retired_step d e r c Hwf He Hc) as (c1 & Hc1 & HR1).
    destruct (IH (step d e) r c1) as (c' & Hc' & HR'); try done.
    { by apply WF_step. }
    exists c'. split; [done|]. by apply (Retired_trans c c1).
Qed.

(** Events other than frames keep the entries of the stack when there is a
    window. *)
Lemma stack_animateBy v d r :
  WF d → window d = true → r ∈ stack d → r ∈ stack (animateBy v d).
Proof.
  intros Hwf Hw Hr. unfold animateBy.
  destruct (decide (_ = v)); [done|].
  assert (Hrc : r ∈ stack (removeCurrent d)).
  { unfold removeCurrent. destruct (current d) as [r0|]; [|done].
    rewrite Hw. simpl. destruct (heap d !! r0) as [c0|]; [|done].
    destruct (decide (state c0 = here)).
    { by destruct (fixed_scheduleAnimationFrame
                (set_heap (<[r0:=set_state leaving c0]> (heap d)) d))
        as (_ & -> & _). }
    destruct (_ && _); [|done].
    by destruct (fixed_scheduleAnimationFrame
              (set_heap (<[r0:=set_state reverse c0]> (heap d)) d))
      as (_ & -> & _). }
  destruct (current d); destruct v as [x|]; try done.
  - destruct (newCurrent_heap x (removeCurrent d)) as (_&_&_&_&_&_& ->).
    apply elem_of_app. by left.
  - destruct (newCurrent_heap x d) as (_&_&_&_&_&_& ->).
    apply elem_of_app. by left.
Qed.

Lemma validEvents_app evs evs' : ∀ last,
  validEvents last (evs ++ evs')
  ↔ validEvents last evs ∧ validEvents (lastClock last evs) evs'.
Proof.
  induction evs as [|e evs IH]; intros last; simpl; [tauto|].
  destruct e as [el|v|o|[q| | |]]; rewrite ?IH; tauto.
Qed.

End BetweenFrames.

(** ** Monotonicity of the existence *)

Section Monotone.

Open Scope Q_scope.

Lemma min_progress_mono q1 q2 t dur e1 e2 :
  0 < dur → q1 <= q2 →
  JsNumber.min (Fin 1) ((Fin q1 - Fin t) / Fin dur)%js = Fin e1 →
  JsNumber.min (Fin 1) ((Fin q2 - Fin t) / Fin dur)%js = Fin e2 →
  e1 <= e2.
Proof.
  intros Hd Hq. rewrite !sub_fin, !div_fin, !min_one_fin by lra.
  pose proof (Qdiv_mono (q1 - t) (q2 - t) dur) as Hmono.
  destruct (Qle_bool 1 ((q1 - t) / dur)) eqn:H1;
    destruct (Qle_bool 1 ((q2 - t) / dur)) eqn:H2;
    intros [= <-] [= <-];
    try apply Qle_bool_iff in H1; try apply Qle_bool_iff in H2;
    try apply Qle_bool_false in H1; try apply Qle_bool_false in H2; lra.
Qed.

(** Two successive turns of the loop on a context that is entering both
    times. *)
Lemma entering_monotone last q1 q2 b1 b2 c :
  match last with Some l => l <= q1 | None => True end → q1 <= q2 →
  timedContext last c → state c = entering →
  state (frameContext (Fin q1) b1 c).1.1 = entering →
  JsNumber.fle (existence (frameContext (Fin q1) b1 c).1.1)
    (existence
       (frameContext (Fin q2) b2 (frameContext (Fin q1) b1 c).1.1).1.1).
Proof.
  intros Hl Hq Hc Hst. pose proof Hc as (_ & _ & Hs).
  destruct (started_default last q1 (startTime c) Hl Hs) as (t & Ht & Htq).
  destruct (timedContext_fin last c Hc)
    as (en & lv & x & Een & Elv & Eex & Hen & Hlv & Hx0 & Hx1).
  rewrite frameContext_entering by done. cbv zeta. rewrite Ht, Een.
  destruct (enter_progress q1 t en Hen) as (e1 & He1 & _).
  rewrite He1. destruct (_ >=? _)%js; simpl; [by destruct b1|].
  intros _. rewrite frameContext_entering by done. simpl. rewrite Een.
  destruct (enter_progress q2 t en Hen) as (e2 & He2 & _).
  rewrite He2.
  pose proof (min_progress_mono q1 q2 t en e1 e2 Hen Hq He1 He2).
  by destruct (_ >=? _)%js.
Qed.

(** Two successive turns of the loop on a context that the first turn
    leaves leaving. *)
Lemma leaving_monotone last q1 q2 b1 b2 c :
  match last with Some l => l <= q1 | None => True end → q1 <= q2 →
  timedContext last c →
  state (frameContext (Fin q1) b1 c).1.1 = leaving →
  JsNumber.fle
    (existence
       (frameContext (Fin q2) b2 (frameContext (Fin q1) b1 c).1.1).1.1)
    (existence (frameContext (Fin q1) b1 c).1.1).
Proof.
  intros Hl Hq Hc. pose proof Hc as (_ & _ & Hs).
  destruct (started_default last q1 (startTime c) Hl Hs) as (t & Ht & Htq).
  destruct (timedContext_fin last c Hc)
    as (en & lv & x & Een & Elv & Eex & Hen & Hlv & Hx0 & Hx1).
  destruct (state c) eqn:Hst.
  - rewrite frameContext_entering by done. cbv zeta.
    destruct (_ >=? _)%js eqn:Hge; simpl; [|congruence].
    destruct b1; simpl; [done|]. intros _.
    rewrite frameContext_leaving by done. simpl. rewrite Elv.
    rewrite (ge_min_one _ Hge).
    destruct (enter_progress q2 q2 lv Hlv) as (m & -> & _ & Hm & _).
    rewrite sub_fin. simpl. specialize (Hm ltac:(lra)). lra.
  - rewrite frameContext_leaving by done. cbv zeta. rewrite Ht, Elv.
    destruct (enter_progress q1 t lv Hlv) as (m1 & Hm1 & _).
    rewrite Hm1. simpl. intros _.
    rewrite frameContext_leaving by done. simpl. rewrite Elv.
    destruct (enter_progress q2 t lv Hlv) as (m2 & Hm2 & _).
    rewrite Hm2, !sub_fin. simpl.
    pose proof (min_progress_mono q1 q2 t lv m1 m2 Hlv Hq Hm1 Hm2). lra.
  - rewrite frameContext_here by done. simpl. congruence.
  - rewrite frameContext_reverse by done. cbv zeta. rewrite Elv, Eex.
    rewrite (sub_fin 1 x), mul_fin, (sub_fin q1 (lv * (1 - x))).
    destruct (enter_progress q1 (q1 - lv * (1 - x)) lv Hlv)
      as (m1 & Hm1 & _).
    rewrite Hm1. simpl. intros _.
    rewrite frameContext_leaving by done. simpl. rewrite Elv.
    destruct (enter_progress q2 (q1 - lv * (1 - x)) lv Hlv)
      as (m2 & Hm2 & _).
    rewrite Hm2, !sub_fin. simpl.
    pose proof (min_progress_mono q1 q2 _ lv m1 m2 Hlv Hq Hm1 Hm2). lra.
Qed.

Lemma frameContext_entering_inv clock b c :
  state (frameContext clock b c).1.1 = entering → state c = entering.
Proof.
  destruct (state c) eqn:Hst; [done| | |].
  - rewrite frameContext_leaving by done. simpl. congruence.
  - rewrite frameContext_here by done. simpl. congruence.
  - rewrite frameContext_reverse by done. simpl. congruence.
Qed.

Lemma frameContext_leaving_state clock b c :
  state c = leaving → state (frameContext clock b c).1.1 = leaving.
Proof. intros Hst. rewrite frameContext_leaving by done. done. Qed.

Lemma fle_refl_unit x : JsNumber.between 0 1 x → JsNumber.fle x x.
Proof. destruct x; simpl; try done. lra. Qed.

(** C4.  Take an execution with positive durations and a clock that does
    not run backwards, an entry [r] of its stack, a frame at [c1], then
    events other than frames, then a frame at [c2], with [c1 < c2].  If [r]
    is entering when both frames begin, or when both frames end, the
    existence the second frame leaves is not below the one the first frame
    left; if [r] is leaving when the first frame ends (as it is when it was
    leaving as the frame began), or leaving when both frames begin, the
    existence the second frame leaves is not above it. *)
Theorem existence_monotone (evs mid : list Event) (c1 c2 : num) (r : ref)
    (ctx0 ctx1 ctxm ctx2 : AnimateByContext) :
  validEvents None (evs ++ [Frame c1]) →
  JsNumber.flt c1 c2 →
  forallb (fun e => negb (isFrame e)) mid = true →
  let d0 := run evs newDirective in
  let d1 := step d0 (Frame c1) in
  let dm := run mid d1 in
  let d2 := step dm (Frame c2) in
  r ∈ stack d0 →
  contextOf d0 r = Some ctx0 → contextOf d1 r = Some ctx1 →
  contextOf dm r = Some ctxm → contextOf d2 r = Some ctx2 →
  (state ctx0 = entering → state ctxm = entering →
   JsNumber.fle (existence ctx1) (existence ctx2))
  ∧ (state ctx1 = entering → state ctx2 = entering →
     JsNumber.fle (existence ctx1) (existence ctx2))
  ∧ (state ctx1 = leaving →
     JsNumber.fle (existence ctx2) (existence ctx1))
  ∧ (state ctx0 = leaving → state ctxm = leaving →
     JsNumber.fle (existence ctx2) (existence ctx1)).
Proof.
  intros Hv Hlt Hmid d0 d1 dm d2 Hr H0 H1 Hm H2.
  unfold contextOf in *.
  apply validEvents_app in Hv as [Hv Hv1].
  destruct c1 as [q1| | |]; try done. destruct c2 as [q2| | |]; try done.
  simpl in Hlt, Hv1. destruct Hv1 as [Hl _].
  set (last := lastClock None evs) in *.
  assert (Hwf0 : WF d0) by apply WF_execution.
  assert (Hwf1 : WF d1) by by apply WF_step.
  assert (Hwfm : WF dm) by by apply WF_run.
  pose proof (Pending_execution evs) as Hp0. fold d0 in Hp0.
  destruct (Timed_run evs None newDirective WF_newDirective Hv
              Timed_newDirective) as [_ Ht0].
  fold d0 last in Ht0. pose proof (Ht0 r ctx0 H0) as Htc0.
  (* the first frame *)
  assert (Hc1 : ctx1 = ctx0 ∧ state ctx0 = here
                ∨ ∃ b, ctx1 = (frameContext (Fin q1) b ctx0).1.1).
  { subst d1. simpl in H1. rewrite runFrame_lookup, H0 in H1 by done.
    injection H1 as <-. unfold framedBy, framed.
    destruct (decide (state ctx0 = here)) as [Hh|Hh].
    - left. split; [|done].
      destruct (bool_decide _); [done|]. destruct (bool_decide _); [|done].
      by rewrite frameContext_here.
    - right. rewrite bool_decide_eq_false_2
        by by apply (pending_frame d0 r ctx0).
      rewrite bool_decide_eq_true_2 by done. eauto. }
  (* between the frames *)
  destruct (Retired_run mid d1 r ctx1 Hwf1 Hmid H1) as (ctxm' & Hm' & HR).
  fold dm in Hm'. assert (ctxm' = ctxm) as -> by congruence.
  (* the second frame *)
  assert (Hc2 : ctx2 = ctxm ∨ ∃ b, ctx2 = (frameContext (Fin q2) b ctxm).1.1).
  { subst d2. simpl in H2. rewrite runFrame_lookup, Hm in H2 by done.
    injection H2 as <-. unfold framedBy, framed.
    destruct (bool_decide _); [by left|].
    destruct (bool_decide _); [right; eauto|by left]. }
  assert (Hq : q1 <= q2) by lra.
  assert (Hentering : state ctx0 = entering → state ctxm = entering →
            JsNumber.fle (existence ctx1) (existence ctx2)).
  { intros Hs0 Hsm.
    destruct Hc1 as [[_ ?]|[b1 ->]]; [congruence|].
    destruct HR as [->|[[_ ->]|[_ ->]]]; try done.
    destruct Hc2 as [->|[b2 ->]].
    - apply fle_refl_unit.
      by destruct (frameContext_timed last q1 b1 ctx0 Hl Htc0) as (_ & ? & _).
    - by apply (entering_monotone last). }
  assert (Hleaving : state ctx1 = leaving →
            JsNumber.fle (existence ctx2) (existence ctx1)).
  { intros Hs1.
    destruct Hc1 as [[-> ?]|[b1 ->]]; [congruence|].
    destruct HR as [->|[[? _]|[? _]]]; try congruence.
    destruct Hc2 as [->|[b2 ->]].
    - apply fle_refl_unit.
      by destruct (frameContext_timed last q1 b1 ctx0 Hl Htc0) as (_ & ? & _).
    - by apply (leaving_monotone last). }
  split_and!; try done.
  - intros Hs1 Hs2. apply Hentering.
    + destruct Hc1 as [[-> ?]|[b1 ->]]; [congruence|].
      by apply frameContext_entering_inv in Hs1.
    + destruct Hc2 as [->|[b2 ->]]; [done|].
      by apply frameContext_entering_inv in Hs2.
  - intros Hs0 Hsm. apply Hleaving.
    destruct Hc1 as [[_ ?]|[b1 ->]]; [congruence|].
    by apply frameContext_leaving_state.
Qed.

End Monotone.

(** ** A frame on an entry that is not ['here'] *)

Section FrameOnEntry.

(** In an execution, a frame of the window does run the turn of the loop on
    every entry of the stack that is not ['here']. *)
Lemma runFrame_context clock d r c :
  WF d → Pending d → r ∈ stack d → heap d !! r = Some c → state c ≠ here →
  let turn := frameContext clock (bool_decide (Some r = current d)) c in
  heap (runFrame clock d) !! r = Some turn.1.1
  ∧ (turn.2 = false → r ∈ stack (runFrame clock d))
  ∧ (turn.1.2 = true → frameQueue (runFrame clock d) ≠ []).
Proof.
  intros Hwf Hp Hr Hc Hst turn.
  assert (Hq : frameQueue d ≠ []) by by apply (pending_frame d r c).
  split_and!.
  - rewrite runFrame_lookup, Hc by done. simpl. unfold framedBy, framed.
    by rewrite bool_decide_eq_false_2, bool_decide_eq_true_2.
  - intros Hkeep. rewrite runFrame_stack by done. apply elem_of_bfilter.
    split; [done|]. rewrite (removes_spec clock d r c Hc). fold turn.
    by rewrite Hkeep.
  - intros Hasks. apply runFrame_asks; try done.
    apply existsb_exists. exists r. split; [by apply list_elem_of_In|].
    by rewrite (asksAnother_spec clock d r c Hc).
Qed.

Lemma animateBy_retires v d r c :
  WF d → current d = Some r → heap d !! r = Some c → v ≠ Some (implicit c) →
  heap (animateBy v d) !! r = Some (retire d c)
  ∧ current (animateBy v d) ≠ Some r.
Proof.
  intros Hwf Hcur Hc Hv. split.
  - rewrite (animateBy_lookup v d r c Hwf Hc). unfold retiredBy.
    rewrite bool_decide_eq_true_2; [done|]. split; [done|congruence].
  - unfold animateBy. rewrite Hcur, Hc. simpl.
    destruct (decide (Some (implicit c) = v)); [congruence|].
    destruct v as [x|].
    + destruct (newCurrent_heap x (removeCurrent d)) as (_&_&_&_&_& -> &_).
      destruct (removeCurrent_fixed d) as (_ & _ & _ & -> & _).
      assert (r < nextRef d); [|intros [= ?]; lia].
      apply (wf_heap d Hwf). eauto.
    + by rewrite current_removeCurrent.
Qed.

End FrameOnEntry.

(** ** Retiring the entry that is ['here'] *)

Section RetireHere.

Open Scope Q_scope.

Lemma leave_starts_full q lv :
  0 < lv →
  ∃ e, (Fin 1 - JsNumber.min (Fin 1) ((Fin q - Fin q) / Fin lv))%js = Fin e
       ∧ e == 1 ∧ (Fin e <=? Fin 0)%js = false.
Proof.
  intros Hlv. rewrite sub_fin, div_fin, min_one_fin by lra.
  assert (Hz : (q - q) / lv == 0) by (field; lra).
  destruct (Qle_bool 1 ((q - q) / lv)) eqn:Hle.
  { apply Qle_bool_iff in Hle. lra. }
  rewrite sub_fin. eexists. split; [done|]. split; [lra|].
  change (Qle_bool (1 - (q - q) / lv) 0 = false).
  apply not_true_is_false. intros H%Qle_bool_iff. lra.
Qed.

(** Whatever the leave duration, the leave formula at [elapsed = 0] does
    not give an existence [<= 0]: the frame that starts a leaving animation
    never removes the entry. *)
Lemma leave_start_kept q (dur : num) :
  ((Fin 1 - JsNumber.min (Fin 1) ((Fin q - Fin q) / dur))%js <=? Fin 0)%js
  = false.
Proof.
  rewrite sub_fin. destruct dur as [lv| | |]; try done.
  unfold JsNumber.div. destruct (Qeq_bool lv 0) eqn:Hz.
  - assert (Hs : JsNumber.qsign (q - q) = Eq).
    { apply Qeq_alt. lra. }
    by rewrite Hs.
  - apply Qeq_bool_neq in Hz. rewrite min_one_fin.
    assert (Hq : (q - q) / lv == 0) by (field; done).
    destruct (Qle_bool 1 ((q - q) / lv)) eqn:Hle.
    { apply Qle_bool_iff in Hle. lra. }
    rewrite sub_fin.
    change (Qle_bool (1 - (q - q) / lv) 0 = false).
    apply not_true_is_false. intros H%Qle_bool_iff. lra.
Qed.

(** C10.  In an execution with a window, when the current entry is ['here']
    and the input changes (to another object or to [undefined]), the entry
    becomes ['leaving'] with its [startTime] undefined and existence [1],
    stays in the stack, and a frame is requested.  The next frame, at a
    finite [clock], sets its [startTime] to [clock] and applies the leave
    formula at [elapsed = 0], which is existence [1] when the leave
    duration is positive; the entry is still leaving and in the stack, and
    another frame is requested; the frame after that, at [clock'], computes
    the existence [1 - min(1, (clock' - clock) / leave)]. *)
Theorem here_retires_to_full_leave (evs : list Event) (r : ref)
    (c : AnimateByContext) (v : option value) (clock : num) :
  let d := run evs newDirective in
  window d = true → current d = Some r → contextOf d r = Some c →
  state c = here → v ≠ Some (implicit c) → JsNumber.finite clock →
  let d1 := animateBy v d in
  let d2 := runFrame clock d1 in
  startTime c = None ∧ existence c = Fin 1
  ∧ contextOf d1 r = Some (set_state leaving c)
  ∧ r ∈ stack d1 ∧ frameQueue d1 ≠ []
  ∧ ∃ c2,
      contextOf d2 r = Some c2
      ∧ state c2 = leaving ∧ startTime c2 = Some clock
      ∧ existence c2
        = (Fin 1
           - JsNumber.min (Fin 1) ((clock - clock) / leave (timings c)))%js
      ∧ (JsNumber.positive (leave (timings c)) →
         (existence c2 == Fin 1)%js)
      ∧ r ∈ stack d2 ∧ frameQueue d2 ≠ []
      ∧ ∀ clock', ∃ c3,
          contextOf (runFrame clock' d2) r = Some c3
          ∧ state c3 = leaving
          ∧ existence c3
            = (Fin 1
               - JsNumber.min (Fin 1) ((clock' - clock) / leave (timings c)))%js.
Proof.
  intros d Hw Hcur Hc Hst Hv Hfin d1 d2. unfold contextOf in *.
  assert (Hwf : WF d) by apply WF_execution.
  assert (Hwf1 : WF d1) by by apply WF_animateBy.
  assert (Hwf2 : WF d2) by by apply WF_runFrame.
  assert (Hp1 : Pending d1).
  { apply Pending_animateBy; [done|apply Pending_execution]. }
  assert (Hp2 : Pending d2) by by apply Pending_runFrame.
  assert (Hr : r ∈ stack d) by by apply (wf_current d Hwf).
  destruct (wf_here d Hwf r c Hr Hc Hst) as (_ & Ht & He).
  destruct (animateBy_retires v d r c Hwf Hcur Hc Hv) as [Hc1 Hcur1].
  fold d1 in Hc1, Hcur1.
  assert (Hret : retire d c = set_state leaving c).
  { unfold retire. rewrite Hw. by destruct (decide (state c = here)). }
  rewrite Hret in Hc1.
  assert (Hr1 : r ∈ stack d1) by by apply stack_animateBy.
  assert (Hq1 : frameQueue d1 ≠ [])
    by by apply (pending_frame d1 r (set_state leaving c)).
  split_and!; try done.
  destruct clock as [q| | |]; try done.
  destruct (runFrame_context (Fin q) d1 r (set_state leaving c))
    as (Hc2 & Hr2 & Hq2); try done.
  fold d2 in Hc2, Hr2, Hq2.
  rewrite frameContext_leaving in Hc2, Hr2, Hq2 by done.
  simpl in Hc2, Hr2, Hq2. rewrite Ht in Hc2, Hr2, Hq2.
  simpl in Hc2, Hr2, Hq2.
  rewrite leave_start_kept in Hr2, Hq2.
  eexists. split; [exact Hc2|]. simpl.
  split_and!; try done; [|by apply Hr2|by apply Hq2|].
  - intros Hlv. destruct (leave (timings c)) as [lv| | |]; try done.
    destruct (leave_starts_full q lv Hlv) as (e & -> & He1 & _). done.
  - intros clock'.
    destruct (runFrame_context clock' d2 r _ Hwf2 Hp2 (Hr2 eq_refl) Hc2)
      as (Hc3 & _); [done|].
    eexists. split; [exact Hc3|].
    by rewrite frameContext_leaving by done.
Qed.

End RetireHere.

(** ** Retiring an entering entry, symmetric *)

Section Symmetric.

Open Scope Q_scope.



End Symmetric.

(** ** Retiring an entering entry, not symmetric *)

Section Asymmetric.

Lemma animateBy_current v d :
  nextRef d ≤ nextRef (animateBy v d)
  ∧ (current (animateBy v d) = current d
     ∨ current (animateBy v d) = None
     ∨ current (animateBy v d) = Some (nextRef d)).
Proof.
  unfold animateBy. destruct (decide (_ = v)); [auto|].
  destruct (removeCurrent_fixed d) as (_ & _ & _ & Hn & _).
  pose proof (current_removeCurrent d) as Hc.
  destruct (current d) eqn:Hcur; destruct v as [x|].
  - destruct (newCurrent_heap x (removeCurrent d)) as (_&_&_&_& -> & -> &_).
    rewrite Hn. split; [lia|auto].
  - rewrite Hn, Hc. split; [lia|auto].
  - destruct (newCurrent_heap x d) as (_&_&_&_& -> & -> &_).
    split; [lia|auto].
  - split; [lia|auto].
Qed.

Lemma Superseded_step r d e : Superseded r d → Superseded r (step d e).
Proof.
  intros [Hwf Hw Ha Hcur (c & Hc & Hst)].
  assert (Hwf' : WF (step d e)) by by apply WF_step.
  assert (Hi : inited d = true) by by apply (wf_window d Hwf).
  destruct e as [el|v|o|clock]; simpl in *.
  - rewrite Hi. constructor; eauto.
  - destruct (animateBy_fixed v d) as (_ & Hw' & _).
    destruct (animateBy_current v d) as (Hn & Hcur').
    constructor; try done.
    + congruence.
    + lia.
    + destruct Hcur' as [-> | [-> | ->]]; try done. intros [= ?]. lia.
    + exists c. split.
      * rewrite (animateBy_lookup v d r c Hwf Hc). unfold retiredBy.
        rewrite bool_decide_eq_false_2; [done|]. by intros [? _].
      * destruct Hst as [[? ?]|?]; [left|by right].
        split; [done|]. by apply stack_animateBy.
  - constructor; eauto.
  - destruct (runFrame_fixed clock d Hwf) as (_ & Hw' & _ & Hcur' & Hn).
    constructor; try done; try congruence.
    rewrite runFrame_lookup, Hc by done. simpl. eexists. split; [done|].
    unfold framedBy, framed.
    destruct (decide (frameQueue d = [])) as [Hq|Hq].
    { rewrite bool_decide_eq_true_2 by done.
      unfold runFrame. by destruct (frameQueue d). }
    rewrite bool_decide_eq_false_2 by done.
    rewrite (bool_decide_eq_false_2 (Some r = current d)) by done.
    destruct Hst as [[Hst Hr]|Hst].
    + rewrite bool_decide_eq_true_2 by done.
      pose proof (removes_spec clock d r c Hc) as Hrm.
      rewrite (bool_decide_eq_false_2 (Some r = current d)) in Hrm by done.
      rewrite frameContext_entering in * by done. cbv zeta in *.
      destruct (_ >=? _)%js; simpl in *; [by right|].
      left. split; [done|]. rewrite runFrame_stack by done.
      apply elem_of_bfilter. by rewrite Hrm.
    + right. destruct (bool_decide (r ∈ stack d)); [|done].
      by apply frameContext_leaving_state.
Qed.

Lemma Superseded_run evs : ∀ r d, Superseded r d → Superseded r (run evs d).
Proof.
  induction evs as [|e evs IH]; intros r d Hs; [done|].
  apply IH. by apply Superseded_step.
Qed.

(** C3.  In an execution with a window and [symmetric] not set, when the
    current entry is entering and the input changes, its context is left as
    it is (state, [startTime], existence) and it stays in the stack, no
    longer current.  From then on, whatever happens: the entry is entering
    or leaving, never ['here']; and while it is entering it is in the stack,
    a frame is requested, events other than frames leave its context alone,
    and a frame at [clock] computes [e = min(1, (clock - startTime) /
    enter)], the start time being [clock] when undefined: if [e >= 1] the
    entry becomes ['leaving'] at existence exactly [1] with [startTime]
    undefined, else it keeps entering at existence [e]; either way it stays
    in the stack and another frame is requested. *)
Theorem asymmetric_retirement_completes_entering (evs : list Event)
    (r : ref) (c : AnimateByContext) (v : option value) :
  let d := run evs newDirective in
  window d = true →
  AnimateByOptions.symmetric (animateByOptions d) = false →
  current d = Some r → contextOf d r = Some c → state c = entering →
  v ≠ Some (implicit c) →
  let d1 := animateBy v d in
  contextOf d1 r = Some c ∧ r ∈ stack d1 ∧ current d1 ≠ Some r
  ∧ ∀ evs',
      let d2 := run evs' d1 in
      ∃ c2,
        contextOf d2 r = Some c2
        ∧ (state c2 = entering ∨ state c2 = leaving)
        ∧ (state c2 = entering →
           r ∈ stack d2 ∧ frameQueue d2 ≠ []
           ∧ (∀ e, isFrame e = false → contextOf (step d2 e) r = Some c2)
           ∧ ∀ clock,
               let d3 := runFrame clock d2 in
               let t := default clock (startTime c2) in
               let e :=
                 JsNumber.min (Fin 1) ((clock - t) / enter (timings c2))%js in
               contextOf d3 r
               = Some (if (e >=? Fin 1)%js
                       then set_startTime None
                              (set_state leaving (set_existence (Fin 1) c2))
                       else set_startTime (Some t) (set_existence e c2))
               ∧ r ∈ stack d3 ∧ frameQueue d3 ≠ []).
Proof.
  intros d Hw Hsym Hcur Hc Hst Hv d1. unfold contextOf in *.
  assert (Hwf : WF d) by apply WF_execution.
  assert (Hwf1 : WF d1) by by apply WF_animateBy.
  assert (Hr : r ∈ stack d) by by apply (wf_current d Hwf).
  destruct (animateBy_retires v d r c Hwf Hcur Hc Hv) as [Hc1 Hcur1].
  fold d1 in Hc1, Hcur1.
  assert (Hret : retire d c = c).
  { unfold retire. rewrite Hw, Hsym.
    by destruct (decide (state c = here)); [congruence|]. }
  rewrite Hret in Hc1.
  assert (Hr1 : r ∈ stack d1) by by apply stack_animateBy.
  split_and!; try done.
  intros evs'. set (d2 := run evs' d1).
  assert (Hsup1 : Superseded r d1).
  { constructor; try done.
    - subst d1. by destruct (animateBy_fixed v d) as (_ & -> & _).
    - apply (wf_stack d1 Hwf1), Hr1.
    - exists c. eauto. }
  destruct (Superseded_run evs' r d1 Hsup1) as [Hwf2 Hw2 Ha2 Hcur2 Hst2].
  fold d2 in Hwf2, Hw2, Ha2, Hcur2, Hst2.
  destruct Hst2 as (c2 & Hc2 & Hst2). exists c2.
  split_and!; [done|destruct Hst2 as [[? _]|?]; auto|].
  intros Hent. destruct Hst2 as [[_ Hr2]|?]; [|congruence].
  assert (Hp2 : Pending d2).
  { apply Pending_run; [done|].
    apply Pending_animateBy; [done|apply Pending_execution]. }
  assert (Hne : state c2 ≠ here) by congruence.
  split_and!; try done.
  - by apply (pending_frame d2 r c2).
  - intros e He. destruct e as [el|v'|o|clock]; simpl in *; try done.
    + rewrite (wf_window d2 Hwf2 Hw2). done.
    + rewrite (animateBy_lookup v' d2 r c2 Hwf2 Hc2). unfold retiredBy.
      rewrite bool_decide_eq_false_2; [done|]. by intros [? _].
  - intros clock.
    destruct (runFrame_context clock d2 r c2 Hwf2 Hp2 Hr2 Hc2 Hne)
      as (Hc3 & Hr3 & Hq3).
    rewrite (bool_decide_eq_false_2 (Some r = current d2)) in * by done.
    rewrite frameContext_entering in * by done. cbv zeta in *.
    destruct (_ >=? Fin 1)%js eqn:Hge; simpl in *.
    + rewrite Hc3, (ge_min_one _ Hge). auto.
    + auto.
Qed.

End Asymmetric.

(** ** Durations of zero *)

Section ZeroDuration.

Open Scope Q_scope.

Lemma div_zero_pos a z : 0 < a → z == 0 → (Fin a / Fin z)%js = PInf.
Proof.
  intros Ha Hz. unfold JsNumber.div.
  destruct (Qeq_bool z 0) eqn:H.
  - assert (Hs : JsNumber.qsign a = Lt) by by apply Qlt_alt.
    by rewrite Hs.
  - exfalso. apply Qeq_bool_neq in H. done.
Qed.

(** With an enter duration of [0], a frame whose clock is after the start
    time completes the entering animation: [elapsed / 0] is [+Infinity],
    which [Math.min] clamps to [1]. *)
Lemma zero_enter_after_start clock b c t z :
  state c = entering → startTime c = Some t → JsNumber.flt t clock →
  enter (timings c) = Fin z → z == 0 →
  frameContext clock b c
  = (set_startTime None
       (set_state (if b then here else leaving) (set_existence (Fin 1) c)),
     negb b, false).
Proof.
  intros Hst Ht Hlt Hen Hz.
  destruct t as [t| | |], clock as [q| | |]; try done. simpl in Hlt.
  rewrite frameContext_entering by done. cbv zeta.
  rewrite Ht, Hen. simpl. rewrite sub_fin, div_zero_pos by lra. done.
Qed.

(** With a leave duration of [0], a frame whose clock is after the start
    time ends the leaving animation: the existence is [0] and the entry is
    pushed on [toRemove]. *)
Lemma zero_leave_after_start clock b c t z :
  state c = leaving → startTime c = Some t → JsNumber.flt t clock →
  leave (timings c) = Fin z → z == 0 →
  frameContext clock b c
  = (set_existence (Fin (1 - 1)) c, false, true).
Proof.
  intros Hst Ht Hlt Hlv Hz.
  destruct t as [t| | |], clock as [q| | |]; try done. simpl in Hlt.
  rewrite frameContext_leaving by done. cbv zeta.
  rewrite Ht, Hlv. simpl. rewrite sub_fin, div_zero_pos by lra.
  destruct c; simpl in *. by subst.
Qed.

Close Scope Q_scope.

(** What the clamp of [Math.min] does achieve with a duration of [0],
    from the second frame of the animation on.  The zero of [JsNumber] is
    [+0]: with a duration of [-0] the quotient is [-Infinity], which the
    clamp lets through.  In an execution, take an entry of the stack whose
    start time is set and a frame whose clock is after it ([elapsed > 0]).
    If the entry is entering with an enter duration of [0], the frame
    leaves it at existence [1], at once ['here'] when it is current and
    ['leaving'] when it is not, with [startTime] undefined.  If it is
    leaving with a leave duration of [0], the frame leaves it at existence
    [0] and removes it from the stack.  In both cases [elapsed / 0] is
    [+Infinity], which [Math.min] clamps to [1]. *)
Theorem zero_duration_jumps_after_start (evs : list Event) (r : ref)
    (c : AnimateByContext) (t clock : num) :
  let d := run evs newDirective in
  r ∈ stack d → contextOf d r = Some c →
  startTime c = Some t → JsNumber.flt t clock →
  let d' := runFrame clock d in
  (state c = entering → (enter (timings c) == Fin 0)%js →
   ∃ c', contextOf d' r = Some c'
         ∧ existence c' = Fin 1
         ∧ state c' = (if bool_decide (Some r = current d)
                       then here else leaving)
         ∧ startTime c' = None
         ∧ r ∈ stack d')
  ∧ (state c = leaving → (leave (timings c) == Fin 0)%js →
     ∃ c', contextOf d' r = Some c'
           ∧ (existence c' == Fin 0)%js
           ∧ r ∉ stack d').
Proof.
  intros d Hr Hc Ht Hlt d'. unfold contextOf in *.
  assert (Hwf : WF d) by apply WF_execution.
  pose proof (Pending_execution evs) as Hp. fold d in Hp.
  split.
  - intros Hst Hz.
    destruct (enter (timings c)) as [z| | |] eqn:Hen; try done.
    destruct (runFrame_context clock d r c Hwf Hp Hr Hc) as (Hc' & Hr' & _);
      [congruence|].
    fold d' in Hc', Hr'.
    rewrite (zero_enter_after_start clock _ c t z) in Hc', Hr' by done.
    eexists. split; [exact Hc'|]. simpl. split_and!; try done.
    by apply Hr'.
  - intros Hst Hz.
    destruct (leave (timings c)) as [z| | |] eqn:Hlv; try done.
    assert (Hne : state c ≠ here) by congruence.
    destruct (runFrame_context clock d r c Hwf Hp Hr Hc Hne) as (Hc' & _).
    fold d' in Hc'.
    rewrite (zero_leave_after_start clock _ c t z) in Hc' by done.
    eexists. split; [exact Hc'|]. simpl. split; [reflexivity|].
    subst d'. rewrite runFrame_stack
      by (try done; by apply (pending_frame d r c)).
    rewrite elem_of_bfilter. intros [_ Hkept].
    rewrite (removes_spec clock d r c Hc) in Hkept.
    by rewrite (zero_leave_after_start clock _ c t z) in Hkept.
Qed.

(** C9.  The directive does not do what the claim says, and what its own
    documentation says of [existence] ("a floating value between 0 and 1"):
    with durations of [0], the frame that assigns the start time
    ([elapsed = 0]) computes [0 / 0], which is [NaN], and [Math.min(1, NaN)]
    is [NaN].  After the first frame of an entering entry its existence is
    [NaN], not [1], and the entry is still entering; after the first frame
    of a leaving entry its existence is [NaN], not [0], and the entry is
    still in the stack.  In both cases the existence handed to the template
    is not a number of the interval from [0] to [1]. *)
Lemma zero_duration_first_frame :
  let entered :=
    run [Init (Document true); SetOptions zeroTimings;
         SetAnimateBy (Some 7); Frame (Fin 10)] newDirective in
  let left :=
    run [SetOptions zeroTimings; SetAnimateBy (Some 7);
         Init (Document true); SetAnimateBy None; Frame (Fin 10)]
      newDirective in
  (∃ c, contextOf entered 0 = Some c
        ∧ enter (timings c) = Fin 0 ∧ startTime c = Some (Fin 10)
        ∧ state c = entering ∧ existence c = NaN
        ∧ ¬ (existence c == Fin 1)%js
        ∧ ¬ JsNumber.between 0 1 (existence c)
        ∧ stack entered = [0])
  ∧ (∃ c, contextOf left 0 = Some c
          ∧ leave (timings c) = Fin 0 ∧ startTime c = Some (Fin 10)
          ∧ state c = leaving ∧ existence c = NaN
          ∧ ¬ (existence c == Fin 0)%js
          ∧ ¬ JsNumber.between 0 1 (existence c)
          ∧ stack left = [0]).
Proof.
  split; eexists; (split; [vm_compute; reflexivity|]); simpl;
    split_and!; try reflexivity; intros [].
Qed.

End ZeroDuration.

(** ** The setter of the input is idempotent *)

Section Idempotent.

(** After the setter ran with [v], the input of the current entry is [v]
    ([undefined] when there is no current entry). *)
Lemma animateBy_sets v d :
  match current (animateBy v d) with
  | Some r => implicit <$> heap (animateBy v d) !! r
  | None => None
  end = v.
Proof.
  unfold animateBy at 1 2.
  destruct (decide (_ = v)) as [Heq|Hne]; [done|].
  destruct v as [x|].
  - match goal with
    | |- context [newCurrent x ?d'] =>
        destruct (newCurrent_heap x d') as (-> & _ & _ & _ & _ & -> & _)
    end.
    by rewrite lookup_insert_eq.
  - destruct (current d) eqn:Hcur; [|done].
    by rewrite current_removeCurrent.
Qed.

(** Setting the input twice to the same object, or twice to [undefined], is
    setting it once: the second call changes nothing, whatever the state of
    the directive. *)
Theorem animateBy_idempotent (v : option value) (d : Directive) :
  animateBy v (animateBy v d) = animateBy v d.
Proof.
  pose proof (animateBy_sets v d) as Hset.
  unfold animateBy at 1. rewrite Hset.
  by destruct (decide (v = v)).
Qed.

End Idempotent.

(** ** What the methods do to the stack and to the views *)

Section StackEffects.

Lemma views_scheduleAnimationFrame d :
  viewContainer (scheduleAnimationFrame d) = viewContainer d
  ∧ destroyedViews (scheduleAnimationFrame d) = destroyedViews d
  ∧ markedForCheck (scheduleAnimationFrame d) = markedForCheck d.
Proof.
  unfold scheduleAnimationFrame. destruct (animId d); [done|].
  by destruct (window d).
Qed.

Lemma newCurrent_views x d :
  viewContainer (newCurrent x d) = viewContainer d ++ [nextRef d]
  ∧ destroyedViews (newCurrent x d) = destroyedViews d.
Proof.
  unfold newCurrent. destruct (negb (window d) || negb (inited d)); [done|].
  match goal with
  | |- context [scheduleAnimationFrame ?d'] =>
      destruct (views_scheduleAnimationFrame d') as (-> & -> & _)
  end.
  done.
Qed.

(** [removeCurrent] keeps the stack and the views when there is a window,
    and empties the stack into the views torn down when there is none. *)
Lemma removeCurrent_effect d r :
  WF d → current d = Some r →
  (window d = true
   ∧ stack (removeCurrent d) = stack d
   ∧ viewContainer (removeCurrent d) = viewContainer d
   ∧ destroyedViews (removeCurrent d) = destroyedViews d)
  ∨ (window d = false
     ∧ stack d = [r]
     ∧ stack (removeCurrent d) = []
     ∧ viewContainer (removeCurrent d) = []
     ∧ destroyedViews (removeCurrent d) = destroyedViews d ++ [r]).
Proof.
  intros Hwf Hcur. unfold removeCurrent. rewrite Hcur.
  destruct (window d) eqn:Hw.
  - left. split; [done|]. simpl.
    destruct (heap d !! r) as [c|]; [|done].
    destruct (decide (state c = here)).
    { match goal with
      | |- context [scheduleAnimationFrame ?d'] =>
          destruct (views_scheduleAnimationFrame d') as (-> & -> & _);
          destruct (fixed_scheduleAnimationFrame d') as (_ & -> & _)
      end. done. }
    destruct (_ && _); [|done].
    match goal with
    | |- context [scheduleAnimationFrame ?d'] =>
        destruct (views_scheduleAnimationFrame d') as (-> & -> & _);
        destruct (fixed_scheduleAnimationFrame d') as (_ & -> & _)
    end. done.
  - right. destruct (nodriver_shape d Hwf Hw) as (_ & _ & _ & Hv & Hs).
    rewrite Hcur in Hs. destruct Hs as [Hs _].
    rewrite removeStackEntry_in;
      [|apply Hwf|done|rewrite Hs; by apply list_elem_of_singleton].
    rewrite Hs. simpl. by rewrite Nat.eqb_refl.
Qed.

(** The setter either changes nothing, or retires the current entry (which
    stays in the stack with a window, and leaves it for the views torn down
    without one) and then appends a fresh entry when the input is
    defined. *)
Lemma animateBy_effect v d :
  WF d →
  animateBy v d = d
  ∨ ∃ kept gone news,
      (kept = stack d ∧ gone = []
       ∨ window d = false ∧ kept = [] ∧ gone = stack d)
      ∧ (v = None ∧ news = []
         ∧ nextRef (animateBy v d) = nextRef d
         ∧ current (animateBy v d) = None
         ∨ (∃ x, v = Some x) ∧ news = [nextRef d]
           ∧ nextRef (animateBy v d) = S (nextRef d)
           ∧ current (animateBy v d) = Some (nextRef d))
      ∧ stack (animateBy v d) = kept ++ news
      ∧ viewContainer (animateBy v d) = stack (animateBy v d)
      ∧ destroyedViews (animateBy v d) = destroyedViews d ++ gone.
Proof.
  intros Hwf. pose proof (wf_views d Hwf) as Hv.
  unfold animateBy. destruct (decide (_ = v)) as [|Hne]; [by left|]. right.
  destruct (removeCurrent_fixed d) as (_ & _ & _ & Hn & _).
  destruct (current d) as [r|] eqn:Hcur.
  - assert (Hrc : ∃ kept gone,
              (kept = stack d ∧ gone = []
               ∨ window d = false ∧ kept = [] ∧ gone = stack d)
              ∧ stack (removeCurrent d) = kept
              ∧ viewContainer (removeCurrent d) = kept
              ∧ destroyedViews (removeCurrent d) = destroyedViews d ++ gone).
    { destruct (removeCurrent_effect d r Hwf Hcur)
        as [(_ & Hs & Hvc & Hd)|(Hw & Hs0 & Hs & Hvc & Hd)].
      - exists (stack d), []. rewrite app_nil_r.
        split_and!; auto; congruence.
      - exists [], (stack d). rewrite Hs0. split_and!; auto. }
    destruct Hrc as (kept & gone & Hkg & Hs & Hvc & Hd).
    exists kept, gone. destruct v as [x|].
    + exists [nextRef d].
      destruct (newCurrent_heap x (removeCurrent d))
        as (_ & _ & _ & _ & -> & -> & ->).
      destruct (newCurrent_views x (removeCurrent d)) as (-> & ->).
      rewrite Hn, Hs, Hvc, Hd.
      split_and!; [done|right; by eauto|done..].
    + exists []. rewrite current_removeCurrent, Hn, Hs, Hvc, Hd, app_nil_r.
      split_and!; [done|by left|done..].
  - exists (stack d), []. destruct v as [x|]; [|done].
    exists [nextRef d].
    destruct (newCurrent_heap x d) as (_ & _ & _ & _ & -> & -> & ->).
    destruct (newCurrent_views x d) as (-> & ->).
    rewrite Hv, app_nil_r.
    split_and!; [by left|right; by eauto|done..].
Qed.

(** A frame that runs removes from the stack the entries its loop pushed on
    [toRemove], and their views go from the container to the views torn
    down, in the order of the stack. *)
Lemma runFrame_views clock d :
  WF d → frameQueue d ≠ [] →
  viewContainer (runFrame clock d) = stack (runFrame clock d)
  ∧ destroyedViews (runFrame clock d)
    = destroyedViews d
      ++ List.filter (removes clock (current d) (heap d)) (stack d)
  ∧ markedForCheck (runFrame clock d) = S (markedForCheck d).
Proof.
  intros Hwf Hq. rewrite runFrame_eq by done.
  destruct (frameAsksAnother clock d); [|done].
  match goal with
  | |- context [scheduleAnimationFrame ?d'] =>
      destruct (views_scheduleAnimationFrame d') as (-> & -> & ->);
      destruct (fixed_scheduleAnimationFrame d') as (_ & -> & _)
  end.
  done.
Qed.

Lemma bfilter_partition {A : Type} (f : A → bool) (l : list A) :
  List.filter (fun x => negb (f x)) l ++ List.filter f l ≡ₚ l.
Proof.
  induction l as [|a l IH]; simpl; [done|].
  destruct (f a); simpl.
  - rewrite <- Permutation_middle. by rewrite IH.
  - by rewrite IH.
Qed.

Lemma bfilter_sublist {A : Type} (f : A → bool) (l : list A) :
  List.filter f l `sublist_of` l.
Proof.
  induction l as [|a l IH]; simpl; [done|].
  destruct (f a); [by apply sublist_skip|by apply sublist_cons].
Qed.

End StackEffects.

(** ** Every view is in the container or torn down, once *)

Section ViewsOnce.

Lemma Views_animateBy v d : WF d → Views d → Views (animateBy v d).
Proof.
  intros Hwf [Hv Hp].
  destruct (animateBy_effect v d Hwf)
    as [->|(kept & gone & news & Hkg & Hnews & Hs & Hvc & Hd)]; [done|].
  split; [done|]. rewrite Hs, Hd.
  assert (Hkept : kept ++ gone ≡ₚ stack d).
  { destruct Hkg as [[-> ->]|(_ & -> & ->)]; [by rewrite app_nil_r|done]. }
  assert (Hall : (kept ++ news) ++ destroyedViews d ++ gone
                 ≡ₚ (stack d ++ destroyedViews d) ++ news).
  { rewrite <- Hkept. rewrite <- !app_assoc. f_equiv.
    rewrite (Permutation_app_comm news). rewrite !app_assoc. f_equiv.
    apply Permutation_app_comm. }
  rewrite Hall, Hp.
  destruct Hnews as [(_ & -> & -> & _)|(_ & -> & -> & _)].
  - by rewrite app_nil_r.
  - by rewrite seq_S.
Qed.

Lemma Views_runFrame clock d : WF d → Views d → Views (runFrame clock d).
Proof.
  intros Hwf [Hv Hp].
  destruct (decide (frameQueue d = [])) as [Hq|Hq].
  { unfold runFrame. by rewrite Hq. }
  destruct (runFrame_views clock d Hwf Hq) as (Hvc & Hd & _).
  destruct (runFrame_fixed clock d Hwf) as (_ & _ & _ & _ & Hn).
  split; [done|]. rewrite Hd, Hn, runFrame_stack by done.
  rewrite <- Hp.
  rewrite (Permutation_app_comm (destroyedViews d)), app_assoc.
  f_equiv. apply bfilter_partition.
Qed.

Lemma Views_step d e : WF d → Views d → Views (step d e).
Proof.
  intros Hwf Hv. destruct e as [el|v|o|clock]; simpl.
  - destruct (inited d); [done|]. by destruct el.
  - by apply Views_animateBy.
  - done.
  - by apply Views_runFrame.
Qed.

Lemma Views_run evs : ∀ d, WF d → Views d → Views (run evs d).
Proof.
  induction evs as [|e evs IH]; intros d Hwf Hv; [done|].
  apply IH; [by apply WF_step|by apply Views_step].
Qed.

(** In every execution the view container holds the views of the entries
    of the stack, in the order of the stack, and every view ever created is
    either in the container or was torn down, never both and never twice:
    the stack followed by the log of torn down views is a permutation of
    the addresses allocated so far. *)
Theorem views_created_once (evs : list Event) :
  let d := run evs newDirective in
  viewContainer d = stack d
  ∧ stack d ++ destroyedViews d ≡ₚ seq 0 (nextRef d)
  ∧ NoDup (destroyedViews d)
  ∧ (∀ r, r ∈ destroyedViews d → r ∉ stack d)
  ∧ (∀ r, r < nextRef d ↔ r ∈ stack d ∨ r ∈ destroyedViews d).
Proof.
  intros d.
  destruct (Views_run evs newDirective WF_newDirective) as [Hv Hp];
    [done|]. fold d in Hv, Hp.
  assert (Hnd : NoDup (stack d ++ destroyedViews d)).
  { rewrite Hp. apply NoDup_ListNoDup, seq_NoDup. }
  apply NoDup_app in Hnd as (_ & Hdisj & Hnd).
  split_and!; try done.
  - intros r Hr Hs. by apply (Hdisj r).
  - intros r. rewrite <- elem_of_app, Hp, elem_of_seq. lia.
Qed.

End ViewsOnce.

(** ** The stack keeps the order of creation *)

Section CreationOrder.

Lemma Ordered_animateBy v d : WF d → Ordered d → Ordered (animateBy v d).
Proof.
  intros Hwf [Hsub Hlast].
  destruct (animateBy_effect v d Hwf)
    as [->|(kept & gone & news & Hkg & Hnews & Hs & Hvc & Hd)]; [done|].
  assert (Hkept : kept `sublist_of` seq 0 (nextRef d)).
  { destruct Hkg as [[-> _]|(_ & -> & _)]; [done|apply sublist_nil_l]. }
  split; rewrite Hs.
  - destruct Hnews as [(_ & -> & -> & _)|(_ & -> & -> & _)].
    + by rewrite app_nil_r.
    + rewrite seq_S. by apply sublist_app.
  - intros r. destruct Hnews as [(_ & -> & _ & ->)|(_ & -> & -> & ->)];
      [done|]. intros [= <-]. split; [apply last_snoc|done].
Qed.

Lemma Ordered_runFrame clock d : WF d → Ordered d → Ordered (runFrame clock d).
Proof.
  intros Hwf [Hsub Hlast].
  destruct (decide (frameQueue d = [])) as [Hq|Hq].
  { unfold runFrame. by rewrite Hq. }
  destruct (runFrame_fixed clock d Hwf) as (_ & _ & _ & Hcur & Hn).
  pose proof (WF_runFrame clock d Hwf) as Hwf'.
  split.
  - rewrite Hn, runFrame_stack by done.
    etrans; [apply bfilter_sublist|done].
  - intros r Hr. pose proof (wf_current _ Hwf' r Hr) as Hin.
    rewrite Hcur in Hr. destruct (Hlast r Hr) as [Hl Hnext].
    split; [|congruence].
    apply last_Some in Hl as [l' Hl'].
    rewrite runFrame_stack in * by done. rewrite Hl' in *.
    rewrite List.filter_app in *. simpl in *.
    destruct (negb _); [apply last_snoc|].
    rewrite app_nil_r in Hin. apply elem_of_bfilter in Hin as [Hin _].
    pose proof (wf_nodup d Hwf) as Hnd. rewrite Hl' in Hnd.
    apply NoDup_app in Hnd as (_ & Hdisj & _).
    exfalso. apply (Hdisj r Hin). by apply list_elem_of_singleton.
Qed.

Lemma Ordered_step d e : WF d → Ordered d → Ordered (step d e).
Proof.
  intros Hwf Ho. destruct e as [el|v|o|clock]; simpl.
  - destruct (inited d); [done|]. by destruct el.
  - by apply Ordered_animateBy.
  - done.
  - by apply Ordered_runFrame.
Qed.

Lemma Ordered_run evs : ∀ d, WF d → Ordered d → Ordered (run evs d).
Proof.
  induction evs as [|e evs IH]; intros d Hwf Ho; [done|].
  apply IH; [by apply WF_step|by apply Ordered_step].
Qed.

(** In every execution the entries of the stack are in the order in which
    they were created (the stack is a subsequence of the addresses in
    allocation order), and the current entry, when there is one, is the
    newest entry created and the last entry of the stack; its view is the
    last of the view container. *)
Theorem stack_in_creation_order (evs : list Event) :
  let d := run evs newDirective in
  stack d `sublist_of` seq 0 (nextRef d)
  ∧ (∀ r, current d = Some r →
          last (stack d) = Some r ∧ last (viewContainer d) = Some r
          ∧ S r = nextRef d).
Proof.
  intros d.
  destruct (Ordered_run evs newDirective WF_newDirective) as [Hsub Hlast].
  { split; [done|]. intros r. done. }
  fold d in Hsub, Hlast.
  pose proof (WF_execution evs) as Hwf. fold d in Hwf.
  split; [done|]. intros r Hr. destruct (Hlast r Hr) as [Hl Hn].
  by rewrite (wf_views d Hwf).
Qed.

End CreationOrder.

(** ** Frames are requested exactly while an animation runs *)

Section BusyFrames.

(** A turn of the loop that sets [scheduleAnother] leaves the entry in the
    stack, entering or leaving. *)
Lemma frameContext_asks clock b c :
  (frameContext clock b c).1.2 = true →
  (frameContext clock b c).2 = false
  ∧ state (frameContext clock b c).1.1 ≠ here.
Proof.
  destruct (state c) eqn:Hst.
  - rewrite frameContext_entering by done. cbv zeta.
    destruct (_ >=? _)%js; simpl; [|by rewrite Hst].
    destruct b; simpl; done.
  - rewrite frameContext_leaving by done. simpl.
    destruct (_ <=? _)%js; simpl; [done|by rewrite Hst].
  - rewrite frameContext_here by done. done.
  - rewrite frameContext_reverse by done. simpl.
    destruct (_ <=? _)%js; simpl; done.
Qed.

Lemma animId_schedule_stays d :
  animId d ≠ None → animId (scheduleAnimationFrame d) ≠ None.
Proof. intros H. by rewrite scheduleAnimationFrame_pending. Qed.

Lemma Busy_removeCurrent d : WF d → Busy d → Busy (removeCurrent d).
Proof.
  intros Hwf Hb. unfold removeCurrent.
  destruct (current d) as [r0|] eqn:Hcur; [|done].
  pose proof (wf_current d Hwf r0 Hcur) as Hr0.
  destruct (window d) eqn:Hw.
  - destruct (heap d !! r0) as [c0|] eqn:Hc0; [|done].
    assert (Hnew : ∀ st, st ≠ here → Busy
              (set_current None
                 (scheduleAnimationFrame
                    (set_heap (<[r0:=set_state st c0]> (heap d)) d)))).
    { intros st Hst _. exists r0, (set_state st c0). simpl.
      rewrite heap_scheduleAnimationFrame. simpl.
      match goal with
      | |- context [scheduleAnimationFrame ?d'] =>
          destruct (fixed_scheduleAnimationFrame d') as (_ & -> & _)
      end.
      by rewrite lookup_insert_eq. }
    destruct (decide (state c0 = here)); [by apply Hnew|].
    destruct (_ && _); [by apply Hnew|done].
  - intros Ha. exfalso. apply Ha. simpl.
    by destruct (wf_nodriver d Hwf Hw) as (-> & _).
Qed.

Lemma Busy_newCurrent x d : WF d → Busy d → Busy (newCurrent x d).
Proof.
  intros Hwf Hb.
  destruct (newCurrent_heap x d) as (Hh & _ & Hw & _ & _ & _ & Hs).
  unfold Busy. rewrite Hh, Hs.
  destruct (negb (window d) || negb (inited d)) eqn:Hi.
  - unfold newCurrent. rewrite Hi. simpl. intros Ha.
    destruct (Hb Ha) as (r & c & Hr & Hc & Hst).
    exists r, c. split_and!; [set_solver| |done].
    rewrite lookup_insert_ne; [done|].
    apply (wf_stack d Hwf) in Hr. lia.
  - intros _. exists (nextRef d), (freshContext x d).
    split_and!; [set_solver|by rewrite lookup_insert_eq|].
    unfold freshContext. by rewrite Hi.
Qed.

Lemma Busy_animateBy v d : WF d → Busy d → Busy (animateBy v d).
Proof.
  intros Hwf Hb. unfold animateBy.
  destruct (decide (_ = v)); [done|].
  assert (WF (removeCurrent d)) by by apply WF_removeCurrent.
  assert (Busy (removeCurrent d)) by by apply Busy_removeCurrent.
  destruct (current d); destruct v as [x|]; try done;
    by apply Busy_newCurrent.
Qed.

Lemma Busy_runFrame clock d : WF d → Busy d → Busy (runFrame clock d).
Proof.
  intros Hwf Hb.
  destruct (decide (frameQueue d = [])) as [Hq|Hq].
  { unfold runFrame. by rewrite Hq. }
  unfold Busy. rewrite runFrame_stack by done.
  destruct (frameAsksAnother clock d) eqn:Hasks.
  - intros _. apply existsb_exists in Hasks as (r & Hr & Hask).
    apply list_elem_of_In in Hr.
    destruct (WF_lookup d r Hwf Hr) as [c Hc].
    rewrite (asksAnother_spec clock d r c Hc) in Hask.
    destruct (frameContext_asks _ _ _ Hask) as [Hkeep Hst].
    exists r, (frameContext clock (bool_decide (Some r = current d)) c).1.1.
    split_and!; [| |done].
    + apply elem_of_bfilter. split; [done|].
      by rewrite (removes_spec clock d r c Hc), Hkeep.
    + rewrite runFrame_lookup, Hc by done. simpl. unfold framedBy, framed.
      by rewrite bool_decide_eq_false_2, bool_decide_eq_true_2.
  - intros Ha. exfalso. apply Ha.
    rewrite runFrame_eq, Hasks by done. done.
Qed.

Lemma Busy_step d e : WF d → Busy d → Busy (step d e).
Proof.
  intros Hwf Hb. destruct e as [el|v|o|clock]; simpl.
  - destruct (inited d); [done|]. by destruct el.
  - by apply Busy_animateBy.
  - done.
  - by apply Busy_runFrame.
Qed.

Lemma Busy_run evs : ∀ d, WF d → Busy d → Busy (run evs d).
Proof.
  induction evs as [|e evs IH]; intros d Hwf Hb; [done|].
  apply IH; [by apply WF_step|by apply Busy_step].
Qed.

(** In every execution a frame is requested exactly when some entry of the
    stack is entering, leaving or reversing: an animation in progress
    always has its next frame requested, and once every entry is ['here']
    (or the stack is empty) no frame is requested any more.  A requested
    frame implies that [ngOnInit] ran and found a window. *)
Theorem frame_requested_iff_animating (evs : list Event) :
  let d := run evs newDirective in
  (frameQueue d ≠ []
   ↔ ∃ r c, r ∈ stack d ∧ contextOf d r = Some c ∧ state c ≠ here)
  ∧ (frameQueue d ≠ [] → window d = true ∧ inited d = true).
Proof.
  intros d. pose proof (WF_execution evs) as Hwf. fold d in Hwf.
  pose proof (Pending_execution evs) as Hp. fold d in Hp.
  assert (Hb : Busy d).
  { apply Busy_run; [apply WF_newDirective|]. intros Ha. done. }
  assert (Hqa : frameQueue d ≠ [] ↔ animId d ≠ None).
  { rewrite (wf_queue d Hwf). by destruct (animId d). }
  split.
  - rewrite Hqa. split; [apply Hb|].
    intros (r & c & Hr & Hc & Hst). by apply (Hp r c).
  - intros Hq. pose proof (runFrame_window d Hwf Hq) as Hw.
    split; [done|]. by apply (wf_window d Hwf).
Qed.

End BusyFrames.

(** ** What never changes in a context *)

Section FixedFields.




End FixedFields.

(** ** When an entry leaves the stack *)

Section Removal2.

(** An entry pushed on [toRemove] is leaving with an existence [<= 0]. *)
Lemma frameContext_removed_done clock b c :
  (frameContext clock b c).2 = true →
  state (frameContext clock b c).1.1 = leaving
  ∧ (existence (frameContext clock b c).1.1 <=? Fin 0)%js = true.
Proof.
  destruct (state c) eqn:Hst.
  - rewrite frameContext_entering by done. cbv zeta.
    by destruct (_ >=? _)%js.
  - rewrite frameContext_leaving by done. simpl. by rewrite Hst.
  - rewrite frameContext_here by done. done.
  - rewrite frameContext_reverse by done. simpl. done.
Qed.

(** In an execution an entry leaves the stack in two ways only: without a
    window, as the current entry, when the input changes; or in a frame, as
    an entry that is not current and was leaving or reversing when the
    frame began, and that the frame leaves leaving with an existence it
    computed [<= 0]; its view is then torn down.  So, with a window, an
    entry that is entering or ['here'] when an event arrives is not removed
    by that event.  A reversing entry can be: the frame makes it leaving
    before it computes its existence. *)
Theorem removed_only_when_done (evs : list Event) (e : Event) (r : ref) :
  let d := run evs newDirective in
  r ∈ stack d → r ∉ stack (step d e) →
  (window d = false ∧ current d = Some r ∧ ∃ v, e = SetAnimateBy v)
  ∨ (∃ clock c c',
       e = Frame clock
       ∧ contextOf d r = Some c
       ∧ (state c = leaving ∨ state c = reverse)
       ∧ current d ≠ Some r
       ∧ contextOf (step d e) r = Some c'
       ∧ state c' = leaving
       ∧ (existence c' <=? Fin 0)%js = true
       ∧ r ∈ destroyedViews (step d e)).
Proof.
  intros d Hr Hgone. pose proof (WF_execution evs) as Hwf. fold d in Hwf.
  destruct e as [el|v|o|clock]; simpl in *.
  - exfalso. apply Hgone. destruct (inited d); [done|]. by destruct el.
  - left. destruct (window d) eqn:Hw.
    { exfalso. apply Hgone. by apply stack_animateBy. }
    split; [done|]. split; [|by eauto].
    destruct (nodriver_shape d Hwf Hw) as (_ & _ & _ & _ & Hs).
    destruct (current d) as [r0|].
    + destruct Hs as [Hs _]. rewrite Hs in Hr.
      by apply list_elem_of_singleton in Hr as ->.
    + rewrite Hs in Hr. by apply elem_of_nil in Hr.
  - done.
  - right. destruct (decide (frameQueue d = [])) as [Hq|Hq].
    { exfalso. apply Hgone. unfold runFrame. by rewrite Hq. }
    destruct (WF_lookup d r Hwf Hr) as [c Hc].
    rewrite runFrame_stack in Hgone by done.
    assert (Hrm : (frameContext clock (bool_decide (Some r = current d)) c).2
                  = true).
    { rewrite <- (removes_spec clock d r c Hc).
      destruct (removes _ _ _ r) eqn:Hrm; [done|].
      exfalso. apply Hgone, elem_of_bfilter. by rewrite Hrm. }
    destruct (frameContext_removed_done _ _ _ Hrm) as [Hst Hex].
    destruct (frameContext_removes _ _ _ Hrm) as [Hbefore _].
    exists clock, c,
      (frameContext clock (bool_decide (Some r = current d)) c).1.1.
    split_and!; try done.
    + intros Hcur.
      destruct (wf_current_state d Hwf r c Hcur Hc) as [Hs|Hs];
        destruct Hbefore; congruence.
    + unfold contextOf. rewrite runFrame_lookup, Hc by done. simpl.
      unfold framedBy, framed.
      by rewrite bool_decide_eq_false_2, bool_decide_eq_true_2.
    + destruct (runFrame_views clock d Hwf Hq) as (_ & -> & _).
      apply elem_of_app. right. apply elem_of_bfilter. split; [done|].
      by rewrite (removes_spec clock d r c Hc).
Qed.

End Removal2.

(** ** The states of the entries of the stack *)

Section States.

(** In every execution the entries of the stack are distinct objects, each
    with a context; the current entry, when there is one, is in the stack
    and is entering or ['here'], never leaving or reversing; and an entry
    that is ['here'] is the current entry, with existence exactly [1] and
    an undefined [startTime]. *)
Theorem stack_states (evs : list Event) :
  let d := run evs newDirective in
  NoDup (stack d)
  ∧ (∀ r, r ∈ stack d → is_Some (contextOf d r))
  ∧ (∀ r, current d = Some r →
          r ∈ stack d
          ∧ ∃ c, contextOf d r = Some c
                 ∧ (state c = entering ∨ state c = here))
  ∧ (∀ r c, r ∈ stack d → contextOf d r = Some c → state c = here →
            current d = Some r ∧ existence c = Fin 1 ∧ startTime c = None).
Proof.
  intros d. pose proof (WF_execution evs) as Hwf. fold d in Hwf.
  unfold contextOf. split_and!.
  - apply Hwf.
  - intros r Hr. destruct (WF_lookup d r Hwf Hr) as [c Hc]. eauto.
  - intros r Hcur. pose proof (wf_current d Hwf r Hcur) as Hr.
    split; [done|]. destruct (WF_lookup d r Hwf Hr) as [c Hc].
    exists c. split; [done|]. by apply (wf_current_state d Hwf r).
  - intros r c Hr Hc Hst.
    by destruct (wf_here d Hwf r c Hr Hc Hst) as (? & ? & ?).
Qed.

(** A frame works entry by entry: when a frame runs, the context it leaves
    to an entry of the stack is the turn of the loop on the entry's own
    context (with the clock, and whether the entry is current), whatever
    the other entries are; the context of an entry that is not in the stack
    stays as it is. *)
Theorem frame_is_entrywise (evs : list Event) (clock : num) (r : ref)
    (c : AnimateByContext) :
  let d := run evs newDirective in
  frameQueue d ≠ [] → contextOf d r = Some c →
  contextOf (runFrame clock d) r
  = Some (if bool_decide (r ∈ stack d)
          then (frameContext clock (bool_decide (Some r = current d)) c).1.1
          else c).
Proof.
  intros d Hq Hc. unfold contextOf in *.
  rewrite runFrame_lookup, Hc by apply WF_execution. simpl.
  unfold framedBy, framed. by rewrite bool_decide_eq_false_2.
Qed.

End States.

(** ** Frames requested, frames run *)

Section FrameCount.

Lemma Counted_scheduleAnimationFrame d :
  Counted d → Counted (scheduleAnimationFrame d).
Proof.
  unfold Counted, scheduleAnimationFrame. intros Hc.
  destruct (animId d); [done|]. destruct (window d); [|done].
  simpl. rewrite length_app. simpl. lia.
Qed.

Lemma Counted_same d d' :
  markedForCheck d' = markedForCheck d → frameQueue d' = frameQueue d →
  lastFrameId d' = lastFrameId d → Counted d → Counted d'.
Proof. unfold Counted. by intros -> -> ->. Qed.

Lemma Counted_removeCurrent d : Counted d → Counted (removeCurrent d).
Proof.
  intros Hc. unfold removeCurrent. destruct (current d) as [r|]; [|done].
  apply (Counted_same
           (if window d
            then match heap d !! r with
                 | Some c =>
                     if decide (state c = here)
                     then scheduleAnimationFrame
                            (set_heap (<[r:=set_state leaving c]> (heap d)) d)
                     else if AnimateByOptions.symmetric (animateByOptions d)
                             && bool_decide (state c = entering)
                     then scheduleAnimationFrame
                            (set_heap (<[r:=set_state reverse c]> (heap d)) d)
                     else d
                 | None => d
                 end
            else removeStackEntry r d)); try done.
  destruct (window d); [|done].
  destruct (heap d !! r) as [c|]; [|done].
  destruct (decide (state c = here));
    [by apply Counted_scheduleAnimationFrame|].
  destruct (_ && _); [by apply Counted_scheduleAnimationFrame|done].
Qed.

Lemma Counted_newCurrent x d : Counted d → Counted (newCurrent x d).
Proof.
  intros Hc. unfold newCurrent.
  destruct (negb (window d) || negb (inited d)); [done|].
  by apply Counted_scheduleAnimationFrame.
Qed.

Lemma Counted_animateBy v d : Counted d → Counted (animateBy v d).
Proof.
  intros Hc. unfold animateBy. destruct (decide (_ = v)); [done|].
  pose proof (Counted_removeCurrent d Hc).
  destruct (current d); destruct v as [x|]; try done;
    by apply Counted_newCurrent.
Qed.

Lemma Counted_runFrame clock d : WF d → Counted d → Counted (runFrame clock d).
Proof.
  intros Hwf Hc.
  destruct (decide (frameQueue d = [])) as [Hq|Hq].
  { unfold runFrame. by rewrite Hq. }
  rewrite runFrame_eq by done.
  assert (Hres : Counted (frameResult clock (set_frameQueue [] d))).
  { unfold Counted in *. simpl. rewrite (wf_queue d Hwf) in Hc, Hq.
    destruct (animId d); [|done]. simpl in Hc. lia. }
  destruct (frameAsksAnother clock d); [|done].
  by apply Counted_scheduleAnimationFrame.
Qed.

Lemma Counted_run evs : ∀ d, WF d → Counted d → Counted (run evs d).
Proof.
  induction evs as [|e evs IH]; intros d Hwf Hc; [done|].
  apply IH; [by apply WF_step|].
  destruct e as [el|v|o|clock]; simpl.
  - destruct (inited d); [done|]. by destruct el.
  - by apply Counted_animateBy.
  - done.
  - by apply Counted_runFrame.
Qed.

(** In every execution, each frame the window was asked for either ran once
    or is the one still requested: the number of runs of
    [doAnimationFrame], each of which marks the view for check once, plus
    the number of requests outstanding, is the number of handles the window
    issued. *)
Theorem frames_run_or_pending (evs : list Event) :
  let d := run evs newDirective in
  markedForCheck d + length (frameQueue d) = lastFrameId d.
Proof.
  intros d. by apply Counted_run; [apply WF_newDirective|].
Qed.

End FrameCount.

(** ** After [ngOnDestroy] *)

Section AfterDestroy.

Lemma quiet_removeCurrent d :
  animId d ≠ None →
  animId (removeCurrent d) = animId d
  ∧ frameQueue (removeCurrent d) = frameQueue d
  ∧ lastFrameId (removeCurrent d) = lastFrameId d
  ∧ markedForCheck (removeCurrent d) = markedForCheck d.
Proof.
  intros Ha. unfold removeCurrent. destruct (current d) as [r|]; [|done].
  destruct (window d); [|done]. simpl.
  destruct (heap d !! r) as [c|]; [|done].
  destruct (decide (state c = here));
    [by rewrite scheduleAnimationFrame_pending|].
  destruct (_ && _); [by rewrite scheduleAnimationFrame_pending|done].
Qed.

Lemma quiet_newCurrent x d :
  animId d ≠ None →
  animId (newCurrent x d) = animId d
  ∧ frameQueue (newCurrent x d) = frameQueue d
  ∧ lastFrameId (newCurrent x d) = lastFrameId d
  ∧ markedForCheck (newCurrent x d) = markedForCheck d.
Proof.
  intros Ha. unfold newCurrent.
  destruct (negb (window d) || negb (inited d)); [done|].
  by rewrite scheduleAnimationFrame_pending.
Qed.

Lemma quiet_animateBy v d :
  animId d ≠ None →
  animId (animateBy v d) = animId d
  ∧ frameQueue (animateBy v d) = frameQueue d
  ∧ lastFrameId (animateBy v d) = lastFrameId d
  ∧ markedForCheck (animateBy v d) = markedForCheck d.
Proof.
  intros Ha. unfold animateBy. destruct (decide (_ = v)); [done|].
  destruct (quiet_removeCurrent d Ha) as (Ha' & Hq' & Hl' & Hm').
  destruct (current d); destruct v as [x|]; try done.
  - destruct (quiet_newCurrent x (removeCurrent d)) as (-> & -> & -> & ->);
      [congruence|done].
  - by apply quiet_newCurrent.
Qed.

Lemma Cancelled_step d e :
  Cancelled d →
  Cancelled (step d e)
  ∧ lastFrameId (step d e) = lastFrameId d
  ∧ markedForCheck (step d e) = markedForCheck d.
Proof.
  intros [Ha Hq]. destruct e as [el|v|o|clock]; simpl.
  - destruct (inited d); [done|]. by destruct el.
  - destruct (quiet_animateBy v d Ha) as (Ha' & Hq' & Hl' & Hm').
    split_and!; try done. split; congruence.
  - done.
  - unfold runFrame. by rewrite Hq.
Qed.

Lemma Cancelled_run evs : ∀ d,
  Cancelled d →
  Cancelled (run evs d)
  ∧ lastFrameId (run evs d) = lastFrameId d
  ∧ markedForCheck (run evs d) = markedForCheck d.
Proof.
  induction evs as [|e evs IH]; intros d Hc; [done|]. simpl.
  destruct (Cancelled_step d e Hc) as (Hc' & Hl & Hm).
  destruct (IH (step d e) Hc') as (? & ? & ?).
  split_and!; [done|congruence..].
Qed.

(** [ngOnDestroy] does not reset [animId].  When it cancels a pending
    frame, the stale handle keeps [scheduleAnimationFrame] from ever
    requesting a frame again: whatever inputs arrive afterwards, no frame
    is requested and [doAnimationFrame] never runs.  When no frame is
    pending, [ngOnDestroy] changes nothing at all. *)
Theorem destroyed_stays_quiet (evs evs' : list Event) :
  let d := run evs newDirective in
  (animId d ≠ None →
   let d' := run evs' (ngOnDestroy d) in
   frameQueue d' = []
   ∧ lastFrameId d' = lastFrameId d
   ∧ markedForCheck d' = markedForCheck d)
  ∧ (animId d = None → ngOnDestroy d = d).
Proof.
  intros d. pose proof (WF_execution evs) as Hwf. fold d in Hwf. split.
  - intros Ha d'. destruct (ngOnDestroy_spec d Hwf) as [Hq Heq].
    assert (Hc : Cancelled (ngOnDestroy d)).
    { split; [|done]. by rewrite Heq. }
    destruct (Cancelled_run evs' (ngOnDestroy d) Hc) as ([_ Hq'] & Hl & Hm).
    fold d' in Hq', Hl, Hm. rewrite Heq in Hl, Hm. done.
  - intros Ha. unfold ngOnDestroy. by rewrite Ha.
Qed.

End AfterDestroy.

(** ** The course of an animation *)

Section Course.

Open Scope Q_scope.

Lemma min_one_reached q t dur :
  0 < dur → t + dur <= q →
  JsNumber.min (Fin 1) ((Fin q - Fin t) / Fin dur)%js = Fin 1.
Proof.
  intros Hd Hq. rewrite sub_fin, div_fin, min_one_fin by lra.
  destruct (Qle_bool 1 ((q - t) / dur)) eqn:Hle; [done|].
  apply Qle_bool_false in Hle. exfalso.
  assert (1 <= (q - t) / dur); [|lra].
  apply Qle_shift_div_l; [done|lra].
Qed.

Lemma min_zero_at_start q dur :
  0 < dur →
  ∃ e, JsNumber.min (Fin 1) ((Fin q - Fin q) / Fin dur)%js = Fin e
       ∧ e == 0 ∧ (Fin e >=? Fin 1)%js = false.
Proof.
  intros Hd. rewrite sub_fin, div_fin, min_one_fin by lra.
  assert (Hz : (q - q) / dur == 0) by (field; lra).
  destruct (Qle_bool 1 ((q - q) / dur)) eqn:Hle.
  { apply Qle_bool_iff in Hle. lra. }
  eexists. split; [done|]. split; [done|]. exact Hle.
Qed.

Close Scope Q_scope.

(** The first frame of an entering entry starts its animation: in an
    execution, for an entry of the stack that is entering with an
    undefined [startTime] and a positive enter duration, a frame at a
    finite [clock] sets [startTime] to [clock] and leaves the existence at
    [0]; the entry keeps entering and another frame is requested.  The
    animation runs from the first frame after the creation, not from the
    creation. *)
Theorem entering_starts_at_first_frame (evs : list Event) (r : ref)
    (c : AnimateByContext) (clock : num) :
  let d := run evs newDirective in
  r ∈ stack d → contextOf d r = Some c →
  state c = entering → startTime c = None →
  JsNumber.positive (enter (timings c)) → JsNumber.finite clock →
  let d' := runFrame clock d in
  ∃ c', contextOf d' r = Some c'
        ∧ state c' = entering ∧ startTime c' = Some clock
        ∧ (existence c' == Fin 0)%js
        ∧ r ∈ stack d' ∧ frameQueue d' ≠ [].
Proof.
  intros d Hr Hc Hst Ht Hen Hfin d'. unfold contextOf in *.
  assert (Hwf : WF d) by apply WF_execution.
  pose proof (Pending_execution evs) as Hp. fold d in Hp.
  destruct clock as [q| | |]; try done.
  destruct (enter (timings c)) as [en| | |] eqn:Een; try done.
  simpl in Hen.
  destruct (runFrame_context (Fin q) d r c Hwf Hp Hr Hc)
    as (Hc' & Hr' & Hq'); [congruence|].
  fold d' in Hc', Hr', Hq'.
  rewrite frameContext_entering in Hc', Hr', Hq' by done.
  cbv zeta in Hc', Hr', Hq'. rewrite Ht, Een in Hc', Hr', Hq'.
  simpl in Hc', Hr', Hq'.
  destruct (min_zero_at_start q en Hen) as (e & He & He0 & Hge).
  rewrite He, Hge in Hc', Hr', Hq'.
  eexists. split; [exact Hc'|]. simpl.
  split_and!; [done|done|done|by apply Hr'|by apply Hq'].
Qed.

(** An entering animation completes: in an execution, for an entry of the
    stack that is entering with a positive enter duration [E] and a start
    time [t], a frame at a clock [>= t + E] sets the existence to exactly
    [1] and clears [startTime]; the entry becomes ['here'] when it is the
    current entry, and ['leaving'] when it was superseded; it stays in the
    stack. *)
Theorem entering_completes (evs : list Event) (r : ref)
    (c : AnimateByContext) (t en q : Q) :
  let d := run evs newDirective in
  r ∈ stack d → contextOf d r = Some c →
  state c = entering → startTime c = Some (Fin t) →
  enter (timings c) = Fin en → (0 < en)%Q → (t + en <= q)%Q →
  let d' := runFrame (Fin q) d in
  contextOf d' r
  = Some (set_startTime None
            (set_state (if bool_decide (Some r = current d)
                        then here else leaving)
               (set_existence (Fin 1) c)))
  ∧ r ∈ stack d'.
Proof.
  intros d Hr Hc Hst Ht Een Hen Hq d'. unfold contextOf in *.
  assert (Hwf : WF d) by apply WF_execution.
  pose proof (Pending_execution evs) as Hp. fold d in Hp.
  destruct (runFrame_context (Fin q) d r c Hwf Hp Hr Hc)
    as (Hc' & Hr' & _); [congruence|].
  fold d' in Hc', Hr'.
  rewrite frameContext_entering in Hc', Hr' by done.
  cbv zeta in Hc', Hr'. rewrite Ht, Een in Hc', Hr'. simpl in Hc', Hr'.
  rewrite (min_one_reached q t en Hen Hq) in Hc', Hr'.
  split; [exact Hc'|by apply Hr'].
Qed.

(** A leaving animation completes: in an execution, for an entry of the
    stack that is leaving with a positive leave duration [L] and a start
    time [t], a frame at a clock [>= t + L] computes the existence [0],
    removes the entry from the stack and from the view container, and logs
    the teardown of its view. *)
Theorem leaving_completes (evs : list Event) (r : ref)
    (c : AnimateByContext) (t lv q : Q) :
  let d := run evs newDirective in
  r ∈ stack d → contextOf d r = Some c →
  state c = leaving → startTime c = Some (Fin t) →
  leave (timings c) = Fin lv → (0 < lv)%Q → (t + lv <= q)%Q →
  let d' := runFrame (Fin q) d in
  (∃ c', contextOf d' r = Some c'
         ∧ state c' = leaving ∧ (existence c' == Fin 0)%js)
  ∧ (r ∉ stack d') ∧ (r ∉ viewContainer d')
  ∧ r ∈ destroyedViews d'.
Proof.
  intros d Hr Hc Hst Ht Elv Hlv Hq d'. unfold contextOf in *.
  assert (Hwf : WF d) by apply WF_execution.
  pose proof (Pending_execution evs) as Hp. fold d in Hp.
  assert (Hne : state c ≠ here) by congruence.
  assert (Hqueue : frameQueue d ≠ []) by by apply (pending_frame d r c).
  destruct (runFrame_context (Fin q) d r c Hwf Hp Hr Hc Hne) as (Hc' & _).
  fold d' in Hc'.
  pose proof (removes_spec (Fin q) d r c Hc) as Hrm.
  rewrite frameContext_leaving in Hc', Hrm by done.
  cbv zeta in Hc', Hrm. rewrite Ht, Elv in Hc', Hrm. simpl in Hc', Hrm.
  rewrite (min_one_reached q t lv Hlv Hq), sub_fin in Hc', Hrm.
  change ((Fin (1 - 1) <=? Fin 0)%js) with true in Hrm.
  destruct (runFrame_views (Fin q) d Hwf Hqueue) as (Hvc & Hd & _).
  fold d' in Hvc, Hd.
  assert (Hgone : r ∉ stack d').
  { subst d'. rewrite runFrame_stack by done.
    rewrite elem_of_bfilter, Hrm. by intros [_ ?]. }
  split_and!; try done.
  - eexists. split; [exact Hc'|]. simpl. split; [done|reflexivity].
  - by rewrite Hvc.
  - rewrite Hd. apply elem_of_app. right. apply elem_of_bfilter. done.
Qed.

End Course.

(** ** Creating an entry with a window *)

Section Creation.

(** In an execution with a window, setting the input to an object that is
    not the input of the current entry appends a fresh entry at the end of
    the stack and of the view container and makes it current; the entry is
    entering, with existence [0], an undefined [startTime], and a copy of
    the timings of the options at that moment ([1000] ms for both when the
    options have none); the entries that were in the stack stay, in order,
    before it; and a frame is requested. *)
Theorem new_entry_with_window (evs : list Event) (x : value) :
  let d := run evs newDirective in
  window d = true →
  (∀ r c, current d = Some r → contextOf d r = Some c → implicit c ≠ x) →
  let d1 := animateBy (Some x) d in
  stack d1 = stack d ++ [nextRef d]
  ∧ viewContainer d1 = stack d1
  ∧ current d1 = Some (nextRef d)
  ∧ contextOf d1 (nextRef d)
    = Some {| implicit := x; state := entering; existence := Fin 0;
              timings :=
                match AnimateByOptions.timings (animateByOptions d) with
                | Some tm => tm
                | None => {| enter := Fin 1000; leave := Fin 1000 |}
                end;
              startTime := None |}
  ∧ frameQueue d1 ≠ [].
Proof.
  intros d Hw Hx d1. unfold contextOf in *.
  assert (Hwf : WF d) by apply WF_execution.
  assert (Hwf1 : WF d1) by by apply WF_animateBy.
  pose proof (animateBy_sets (Some x) d) as Hset. fold d1 in Hset.
  assert (Hne : d1 ≠ d).
  { intros Heq. rewrite Heq in Hset.
    destruct (current d) as [r|] eqn:Hcur; [|done].
    destruct (heap d !! r) as [c|] eqn:Hc; [|done].
    injection Hset as Hi. by apply (Hx r c). }
  destruct (animateBy_effect (Some x) d Hwf)
    as [?|(kept & gone & news & Hkg & Hnews & Hs & Hvc & Hd)]; [done|].
  fold d1 in Hnews, Hs, Hvc, Hd.
  destruct Hkg as [[-> ->]|(? & _)]; [|congruence].
  destruct Hnews as [([=] & _)|(_ & -> & Hn & Hcur1)].
  rewrite Hcur1 in Hset.
  destruct (heap d1 !! nextRef d) as [c'|] eqn:Hc'; [|done].
  assert (Hfree : heap d !! nextRef d = None).
  { apply eq_None_not_Some. rewrite (wf_heap d Hwf). lia. }
  destruct (animateBy_lookup_new (Some x) d (nextRef d) c' Hwf Hfree Hc')
    as (_ & x' & [= <-] & ->).
  assert (Hfresh : state (freshContext x d) = entering).
  { unfold freshContext. by rewrite Hw, (wf_window d Hwf Hw). }
  split_and!; try done.
  - f_equal. unfold freshContext. rewrite Hw, (wf_window d Hwf Hw). simpl.
    unfold newAnimateByContext. simpl.
    by destruct (AnimateByOptions.timings (animateByOptions d)) as [[? ?]|].
  - apply (pending_frame d1 (nextRef d) (freshContext x d)); try done.
    + apply Pending_animateBy; [done|apply Pending_execution].
    + rewrite Hs. set_solver.
    + by rewrite Hfresh.
Qed.

End Creation.

(** ** [removeStackEntry] *)

Section RemoveStackEntry.

Lemma removeAt_last {A : Type} (l : list A) :
  removeAt (length l - 1) l = removelast l.
Proof.
  induction l as [|a l IH]; [done|]. simpl. rewrite Nat.sub_0_r.
  destruct l as [|b l]; [done|]. simpl in *.
  rewrite Nat.sub_0_r in IH. by rewrite IH.
Qed.

(** On a stack without repetition that the view container mirrors,
    [removeStackEntry] of an entry of the stack removes that entry and no
    other from the stack and from the view container, keeps the order of
    the others, logs the teardown of its view, and touches nothing else. *)
Theorem removeStackEntry_removes_it (d : Directive) (r : ref) :
  NoDup (stack d) → viewContainer d = stack d → r ∈ stack d →
  let d' := removeStackEntry r d in
  stack d' = List.filter (fun y => negb (Nat.eqb y r)) (stack d)
  ∧ viewContainer d' = stack d'
  ∧ destroyedViews d' = destroyedViews d ++ [r]
  ∧ (r ∉ stack d')
  ∧ (∀ y, y ≠ r → y ∈ stack d' ↔ y ∈ stack d)
  ∧ heap d' = heap d ∧ current d' = current d ∧ animId d' = animId d
  ∧ frameQueue d' = frameQueue d.
Proof.
  intros Hnd Hv Hr d'. subst d'. rewrite removeStackEntry_in by done. simpl.
  split_and!; try done.
  - rewrite elem_of_bfilter, Nat.eqb_refl. by intros [_ ?].
  - intros y Hy. rewrite elem_of_bfilter.
    destruct (Nat.eqb_spec y r); [done|]. simpl. tauto.
Qed.

(** The edge of [indexOf] and [splice]: for an entry that is not in the
    stack [indexOf] is [-1], and [splice(-1, 1)] removes the last entry of
    the stack: [removeStackEntry] then removes another entry than the one
    it was given (and nothing when the stack is empty). *)
Theorem removeStackEntry_absent_removes_last (d : Directive) (r : ref) :
  r ∉ stack d →
  indexOf r (stack d) = (-1)%Z
  ∧ stack (removeStackEntry r d) = removelast (stack d).
Proof.
  intros Hr. pose proof (indexOf_notin r (stack d) Hr) as Hidx.
  split; [done|]. unfold removeStackEntry. simpl. rewrite Hidx.
  unfold spliceOne, spliceStart. simpl.
  replace (Z.to_nat (Z.max (Z.of_nat (length (stack d)) + -1) 0))
    with (length (stack d) - 1) by lia.
  apply removeAt_last.
Qed.

End RemoveStackEntry.

(** ** Reversal in double precision *)

Section Rounding.

(** The turn of the loop on a reversing entry, in double precision and for
    all operands: the entry becomes leaving, its start time is
    [clock - leave * (1 - existence)], and its existence is the leave
    formula at that start time, each operation rounded. *)
Lemma double_frameContext_reverse clock b c :
  Double.state c = reverse →
  let s :=
    Binary64.sub clock
      (Binary64.mul (Double.leave (Double.timings c))
         (Binary64.sub (Binary64.of_Z 1) (Double.existence c))) in
  let x :=
    Binary64.sub (Binary64.of_Z 1)
      (Binary64.min (Binary64.of_Z 1)
         (Binary64.div (Binary64.sub clock s)
            (Double.leave (Double.timings c)))) in
  Double.frameContext clock b c
  = (Double.set_existence x
       (Double.set_state leaving (Double.set_startTime (Some s) c)),
     negb (Binary64.le x (Binary64.of_Z 0)),
     Binary64.le x (Binary64.of_Z 0)).
Proof.
  intros Hst s x. destruct c as [v st e tm t]. simpl in *. subst st.
  unfold Double.frameContext.
  destruct t; simpl; fold s; fold x; by destruct (Binary64.le x _).
Qed.


(** The size of the rounding, on the grid of the milliseconds of a default
    enter animation: for an entry created with the default timings, first
    drawn at [0] and retired with [symmetric] set after the frame at [k]
    ([k] from [0] to [999]), the existence after the next frame, at
    [k + 16], is within [2 ^ -53] of the existence at the retirement. *)
Lemma reversal_within_rounding_on_grid :
  forallb
    (fun k =>
       let '(e, e') :=
         Double.reversal Double.theDefaultAnimateByTimings
           (Z.of_nat k) (Z.of_nat k + 16) in
       Binary64.le (Binary64.abs (Binary64.sub e' e)) (Binary64.pow2 (-53)))
    (seq 0 1000)
  = true.
Proof. vm_compute. reflexivity. Qed.

End Rounding.

(** ** The theorems at concrete executions *)

Section Instances.

(** C6 at: no document, the input [1] already set, then [2], then [3]. *)
Lemma no_driver_is_synchronous_witness :
  let d := run [Init NoDocument; SetAnimateBy (Some 1)] newDirective in
  let d1 := animateBy (Some 2) d in
  let d2 := animateBy (Some 3) d1 in
  window d = false ∧ 2 ≠ 3
  ∧ ∃ rx ry cx cy,
      stack d1 = [rx] ∧ contextOf d1 rx = Some cx
      ∧ implicit cx = 2 ∧ state cx = here ∧ existence cx = Fin 1
      ∧ stack d2 = [ry] ∧ contextOf d2 ry = Some cy
      ∧ implicit cy = 3 ∧ state cy = here ∧ existence cy = Fin 1
      ∧ rx ≠ ry
      ∧ viewContainer d2 = [ry]
      ∧ destroyedViews d2 = destroyedViews d1 ++ [rx]
      ∧ frameQueue d1 = [] ∧ frameQueue d2 = []
      ∧ animId d2 = None ∧ lastFrameId d2 = 0.
Proof.
  intros d d1 d2.
  assert (Hw : window d = false) by reflexivity.
  assert (Hxy : 2 ≠ 3) by discriminate.
  split; [exact Hw|]. split; [exact Hxy|].
  exact (no_driver_is_synchronous
           [Init NoDocument; SetAnimateBy (Some 1)] 2 3 Hw Hxy).
Defined.

(** C5 at: an entry that is retired while entering, completes its
    entering animation at [1000] ms and starts leaving at [1500] ms. *)
Lemma existence_in_unit_interval_witness :
  let evs :=
    [Init (Document true); SetAnimateBy (Some 7); Frame (Fin 0);
     Frame (Fin 400); SetAnimateBy (Some 8); Frame (Fin 1000);
     Frame (Fin 1500)] in
  let c :=
    {| implicit := 7; state := leaving; existence := Fin (1000 # 1000);
       timings := {| enter := Fin 1000; leave := Fin 1000 |};
       startTime := Some (Fin 1500) |} in
  validEvents None evs
  ∧ 0 ∈ stack (run evs newDirective)
  ∧ contextOf (run evs newDirective) 0 = Some c
  ∧ JsNumber.between 0 1 (existence c).
Proof.
  intros evs c.
  assert (Hv : validEvents None evs).
  { simpl. repeat split; discriminate. }
  assert (Hr : 0 ∈ stack (run evs newDirective)).
  { vm_compute. left. }
  assert (Hc : contextOf (run evs newDirective) 0 = Some c).
  { vm_compute. reflexivity. }
  split; [exact Hv|]. split; [exact Hr|]. split; [exact Hc|].
  exact (proj1 (existence_in_unit_interval evs 0 c Hv Hr Hc)).
Defined.

(** C4 at: an entry that is entering at the frames at [100] and [400] ms. *)
Lemma existence_monotone_witness :
  let evs := [Init (Document true); SetAnimateBy (Some 7); Frame (Fin 0)] in
  let ctx (e : Q) :=
    {| implicit := 7; state := entering; existence := Fin e;
       timings := {| enter := Fin 1000; leave := Fin 1000 |};
       startTime := Some (Fin 0) |} in
  let d0 := run evs newDirective in
  let d1 := step d0 (Frame (Fin 100)) in
  let d2 := step (run [] d1) (Frame (Fin 400)) in
  validEvents None (evs ++ [Frame (Fin 100)])
  ∧ JsNumber.flt (Fin 100) (Fin 400)
  ∧ 0 ∈ stack d0
  ∧ contextOf d0 0 = Some (ctx (0 # 1000))
  ∧ contextOf d1 0 = Some (ctx (100 # 1000))
  ∧ contextOf d2 0 = Some (ctx (400 # 1000))
  ∧ JsNumber.fle (Fin (100 # 1000)) (Fin (400 # 1000)).
Proof.
  intros evs ctx d0 d1 d2.
  assert (Hv : validEvents None (evs ++ [Frame (Fin 100)])).
  { simpl. repeat split; discriminate. }
  assert (Hlt : JsNumber.flt (Fin 100) (Fin 400)) by reflexivity.
  assert (Hr : 0 ∈ stack d0) by (vm_compute; left).
  assert (H0 : contextOf d0 0 = Some (ctx (0 # 1000)))
    by (vm_compute; reflexivity).
  assert (H1 : contextOf d1 0 = Some (ctx (100 # 1000)))
    by (vm_compute; reflexivity).
  assert (H2 : contextOf d2 0 = Some (ctx (400 # 1000)))
    by (vm_compute; reflexivity).
  split; [exact Hv|]. split; [exact Hlt|]. split; [exact Hr|].
  split; [exact H0|]. split; [exact H1|]. split; [exact H2|].
  exact (proj1 (existence_monotone evs [] (Fin 100) (Fin 400) 0
                  (ctx (0 # 1000)) (ctx (100 # 1000)) (ctx (100 # 1000))
                  (ctx (400 # 1000)) Hv Hlt eq_refl Hr H0 H1 H1 H2)
           eq_refl eq_refl).
Defined.

(** C10 at: an entry created before [ngOnInit], retired with a window. *)
Lemma here_retires_to_full_leave_witness :
  let evs := [SetAnimateBy (Some 7); Init (Document true)] in
  let c :=
    {| implicit := 7; state := here; existence := Fin 1;
       timings := {| enter := Fin 1000; leave := Fin 1000 |};
       startTime := None |} in
  let d := run evs newDirective in
  let d1 := animateBy (Some 8) d in
  let d2 := runFrame (Fin 10) d1 in
  window d = true ∧ current d = Some 0 ∧ contextOf d 0 = Some c
  ∧ state c = here ∧ Some 8 ≠ Some (implicit c)
  ∧ JsNumber.finite (Fin 10)
  ∧ contextOf d1 0 = Some (set_state leaving c)
  ∧ 0 ∈ stack d1 ∧ frameQueue d1 ≠ []
  ∧ ∃ c2,
      contextOf d2 0 = Some c2
      ∧ state c2 = leaving ∧ startTime c2 = Some (Fin 10)
      ∧ (existence c2 == Fin 1)%js.
Proof.
  intros evs c d d1 d2.
  assert (Hw : window d = true) by reflexivity.
  assert (Hcur : current d = Some 0) by reflexivity.
  assert (Hc : contextOf d 0 = Some c) by (vm_compute; reflexivity).
  assert (Hst : state c = here) by reflexivity.
  assert (Hv : Some 8 ≠ Some (implicit c)) by discriminate.
  assert (Hfin : JsNumber.finite (Fin 10)) by exact I.
  assert (Hlv : JsNumber.positive (leave (timings c))) by reflexivity.
  split; [exact Hw|]. split; [exact Hcur|]. split; [exact Hc|].
  split; [exact Hst|]. split; [exact Hv|]. split; [exact Hfin|].
  destruct (here_retires_to_full_leave evs 0 c (Some 8) (Fin 10)
              Hw Hcur Hc Hst Hv Hfin)
    as (_ & _ & H1 & Hr1 & Hq1 & c2 & Hc2 & Hs2 & Ht2 & _ & He2 & _).
  split; [exact H1|]. split; [exact Hr1|]. split; [exact Hq1|].
  exists c2. split; [exact Hc2|]. split; [exact Hs2|]. split; [exact Ht2|].
  exact (He2 Hlv).
Defined.


(** C3 at: an entry retired while entering at existence [0.4]; the frame
    at [1200] ms completes its entering animation. *)
Lemma asymmetric_retirement_completes_entering_witness :
  let evs :=
    [Init (Document true); SetAnimateBy (Some 7); Frame (Fin 0);
     Frame (Fin 400)] in
  let c :=
    {| implicit := 7; state := entering; existence := Fin (400 # 1000);
       timings := {| enter := Fin 1000; leave := Fin 1000 |};
       startTime := Some (Fin 0) |} in
  let d := run evs newDirective in
  let d1 := animateBy (Some 8) d in
  window d = true
  ∧ AnimateByOptions.symmetric (animateByOptions d) = false
  ∧ current d = Some 0 ∧ contextOf d 0 = Some c ∧ state c = entering
  ∧ Some 8 ≠ Some (implicit c)
  ∧ contextOf d1 0 = Some c ∧ 0 ∈ stack d1 ∧ current d1 ≠ Some 0
  ∧ ∃ c2,
      contextOf (run [Frame (Fin 1200)] d1) 0 = Some c2
      ∧ (state c2 = entering ∨ state c2 = leaving).
Proof.
  intros evs c d d1.
  assert (Hw : window d = true) by reflexivity.
  assert (Hsym : AnimateByOptions.symmetric (animateByOptions d) = false)
    by reflexivity.
  assert (Hcur : current d = Some 0) by reflexivity.
  assert (Hc : contextOf d 0 = Some c) by (vm_compute; reflexivity).
  assert (Hst : state c = entering) by reflexivity.
  assert (Hv : Some 8 ≠ Some (implicit c)) by discriminate.
  split; [exact Hw|]. split; [exact Hsym|]. split; [exact Hcur|].
  split; [exact Hc|]. split; [exact Hst|]. split; [exact Hv|].
  destruct (asymmetric_retirement_completes_entering evs 0 c (Some 8)
              Hw Hsym Hcur Hc Hst Hv)
    as (H1 & Hr1 & Hcur1 & Hlater).
  split; [exact H1|]. split; [exact Hr1|]. split; [exact Hcur1|].
  destruct (Hlater [Frame (Fin 1200)]) as (c2 & Hc2 & Hs2 & _).
  exists c2. split; [exact Hc2|exact Hs2].
Defined.

(** The clamp at the second frame of an entry with an enter duration of
    [0]. *)
Lemma zero_duration_jumps_after_start_witness :
  let evs :=
    [Init (Document true); SetOptions zeroTimings; SetAnimateBy (Some 7);
     Frame (Fin 10)] in
  let c :=
    {| implicit := 7; state := entering; existence := NaN;
       timings := {| enter := Fin 0; leave := Fin 0 |};
       startTime := Some (Fin 10) |} in
  let d := run evs newDirective in
  0 ∈ stack d ∧ contextOf d 0 = Some c
  ∧ startTime c = Some (Fin 10) ∧ JsNumber.flt (Fin 10) (Fin 11)
  ∧ ∃ c', contextOf (runFrame (Fin 11) d) 0 = Some c'
          ∧ existence c' = Fin 1.
Proof.
  intros evs c d.
  assert (Hr : 0 ∈ stack d) by (vm_compute; left).
  assert (Hc : contextOf d 0 = Some c) by (vm_compute; reflexivity).
  assert (Ht : startTime c = Some (Fin 10)) by reflexivity.
  assert (Hlt : JsNumber.flt (Fin 10) (Fin 11)) by reflexivity.
  split; [exact Hr|]. split; [exact Hc|]. split; [exact Ht|].
  split; [exact Hlt|].
  destruct (proj1 (zero_duration_jumps_after_start evs 0 c (Fin 10) (Fin 11)
                     Hr Hc Ht Hlt) eq_refl (Qeq_refl 0))
    as (c' & Hc' & He' & _).
  exists c'. split; [exact Hc'|exact He'].
Defined.

End Instances.

(** ** The further theorems at concrete executions *)

Section FurtherInstances.


(** Without a window, the current entry leaves the stack when the input is
    cleared.  With a window, an entry retired with [symmetric] set before
    its first frame is reversing at existence [0], and the next frame
    removes it. *)
Lemma removed_only_when_done_witness :
  let evs := [SetAnimateBy (Some 7)] in
  let d := run evs newDirective in
  let evs' :=
    [Init (Document true); SetOptions (AnimateByOptions.mk true None);
     SetAnimateBy (Some 7); SetAnimateBy (Some 8)] in
  let d' := run evs' newDirective in
  (0 ∈ stack d ∧ (0 ∉ stack (step d (SetAnimateBy None)))
   ∧ window d = false ∧ current d = Some 0)
  ∧ (0 ∈ stack d' ∧ (0 ∉ stack (step d' (Frame (Fin 10))))
     ∧ ∃ c c',
         contextOf d' 0 = Some c
         ∧ state c = reverse
         ∧ existence c = Fin 0
         ∧ current d' ≠ Some 0
         ∧ contextOf (step d' (Frame (Fin 10))) 0 = Some c'
         ∧ state c' = leaving
         ∧ (existence c' <=? Fin 0)%js = true
         ∧ 0 ∈ destroyedViews (step d' (Frame (Fin 10)))).
Proof.
  intros evs d evs' d'. split.
  - assert (Hr : 0 ∈ stack d) by (vm_compute; left).
    assert (Hgone : 0 ∉ stack (step d (SetAnimateBy None))).
    { assert (Hs : stack (step d (SetAnimateBy None)) = [])
        by (vm_compute; reflexivity).
      rewrite Hs. apply not_elem_of_nil. }
    split; [exact Hr|]. split; [exact Hgone|].
    destruct (removed_only_when_done evs (SetAnimateBy None) 0 Hr Hgone)
      as [(Hw & Hcur & _)|(clock & c & c' & He & _)].
    + split; [exact Hw|exact Hcur].
    + discriminate He.
  - assert (Hr : 0 ∈ stack d') by (vm_compute; left).
    assert (Hgone : 0 ∉ stack (step d' (Frame (Fin 10)))).
    { assert (Hs : stack (step d' (Frame (Fin 10))) = [1])
        by (vm_compute; reflexivity).
      rewrite Hs. intros H. apply list_elem_of_singleton in H.
      discriminate H. }
    split; [exact Hr|]. split; [exact Hgone|].
    destruct (removed_only_when_done evs' (Frame (Fin 10)) 0 Hr Hgone)
      as [(Hw & _)|(clock & c & c' & _ & Hc & _ & Hcur & Hc' & Hst' & Hex'
                    & Hd')].
    + discriminate Hw.
    + assert (Hc0 : contextOf d' 0
                    = Some {| implicit := 7; state := reverse;
                              existence := Fin 0;
                              timings := {| enter := Fin 1000;
                                            leave := Fin 1000 |};
                              startTime := None |})
        by (vm_compute; reflexivity).
      change (contextOf d' 0 = Some c) in Hc.
      rewrite Hc0 in Hc. injection Hc as <-.
      eexists _, c'. split; [reflexivity|]. split; [reflexivity|].
      split; [reflexivity|]. split; [exact Hcur|]. split; [exact Hc'|].
      split; [exact Hst'|]. split; [exact Hex'|exact Hd'].
Defined.

(** The first frame of a fresh entry. *)
Lemma frame_is_entrywise_witness :
  let evs := [Init (Document true); SetAnimateBy (Some 7)] in
  let c :=
    {| implicit := 7; state := entering; existence := Fin 0;
       timings := {| enter := Fin 1000; leave := Fin 1000 |};
       startTime := None |} in
  let d := run evs newDirective in
  frameQueue d ≠ [] ∧ contextOf d 0 = Some c
  ∧ contextOf (runFrame (Fin 10) d) 0
    = Some (if bool_decide (0 ∈ stack d)
            then (frameContext (Fin 10)
                    (bool_decide (Some 0 = current d)) c).1.1
            else c).
Proof.
  intros evs c d.
  assert (Hq : frameQueue d ≠ []) by (vm_compute; discriminate).
  assert (Hc : contextOf d 0 = Some c) by (vm_compute; reflexivity).
  split; [exact Hq|]. split; [exact Hc|].
  exact (frame_is_entrywise evs (Fin 10) 0 c Hq Hc).
Defined.

Lemma entering_starts_at_first_frame_witness :
  let evs := [Init (Document true); SetAnimateBy (Some 7)] in
  let c :=
    {| implicit := 7; state := entering; existence := Fin 0;
       timings := {| enter := Fin 1000; leave := Fin 1000 |};
       startTime := None |} in
  let d := run evs newDirective in
  0 ∈ stack d ∧ contextOf d 0 = Some c
  ∧ state c = entering ∧ startTime c = None
  ∧ JsNumber.positive (enter (timings c)) ∧ JsNumber.finite (Fin 10)
  ∧ ∃ c', contextOf (runFrame (Fin 10) d) 0 = Some c'
          ∧ state c' = entering ∧ startTime c' = Some (Fin 10)
          ∧ (existence c' == Fin 0)%js
          ∧ 0 ∈ stack (runFrame (Fin 10) d)
          ∧ frameQueue (runFrame (Fin 10) d) ≠ [].
Proof.
  intros evs c d.
  assert (Hr : 0 ∈ stack d) by (vm_compute; left).
  assert (Hc : contextOf d 0 = Some c) by (vm_compute; reflexivity).
  assert (Hst : state c = entering) by reflexivity.
  assert (Ht : startTime c = None) by reflexivity.
  assert (Hen : JsNumber.positive (enter (timings c))) by reflexivity.
  assert (Hfin : JsNumber.finite (Fin 10)) by exact I.
  split; [exact Hr|]. split; [exact Hc|]. split; [exact Hst|].
  split; [exact Ht|]. split; [exact Hen|]. split; [exact Hfin|].
  exact (entering_starts_at_first_frame evs 0 c (Fin 10)
           Hr Hc Hst Ht Hen Hfin).
Defined.

(** The current entry, started at [0] with an enter duration of [1000],
    becomes ['here'] at the frame at [1000]. *)
Lemma entering_completes_witness :
  let evs := [Init (Document true); SetAnimateBy (Some 7); Frame (Fin 0)] in
  let c :=
    {| implicit := 7; state := entering; existence := Fin (0 # 1000);
       timings := {| enter := Fin 1000; leave := Fin 1000 |};
       startTime := Some (Fin 0) |} in
  let d := run evs newDirective in
  0 ∈ stack d ∧ contextOf d 0 = Some c
  ∧ state c = entering ∧ startTime c = Some (Fin 0)
  ∧ enter (timings c) = Fin 1000 ∧ (0 < 1000)%Q ∧ (0 + 1000 <= 1000)%Q
  ∧ contextOf (runFrame (Fin 1000) d) 0
    = Some {| implicit := 7; state := here; existence := Fin 1;
              timings := {| enter := Fin 1000; leave := Fin 1000 |};
              startTime := None |}
  ∧ 0 ∈ stack (runFrame (Fin 1000) d).
Proof.
  intros evs c d.
  assert (Hr : 0 ∈ stack d) by (vm_compute; left).
  assert (Hc : contextOf d 0 = Some c) by (vm_compute; reflexivity).
  assert (Hst : state c = entering) by reflexivity.
  assert (Ht : startTime c = Some (Fin 0)) by reflexivity.
  assert (Een : enter (timings c) = Fin 1000) by reflexivity.
  assert (Hen : (0 < 1000)%Q) by reflexivity.
  assert (Hq : (0 + 1000 <= 1000)%Q) by discriminate.
  split; [exact Hr|]. split; [exact Hc|]. split; [exact Hst|].
  split; [exact Ht|]. split; [exact Een|]. split; [exact Hen|].
  split; [exact Hq|].
  exact (entering_completes evs 0 c 0 1000 1000 Hr Hc Hst Ht Een Hen Hq).
Defined.

(** An entry retired from ['here'], started leaving at [10] with a leave
    duration of [1000], is removed at the frame at [1010]. *)
Lemma leaving_completes_witness :
  let evs :=
    [SetAnimateBy (Some 7); Init (Document true); SetAnimateBy None;
     Frame (Fin 10)] in
  let c :=
    {| implicit := 7; state := leaving; existence := Fin (1000 # 1000);
       timings := {| enter := Fin 1000; leave := Fin 1000 |};
       startTime := Some (Fin 10) |} in
  let d := run evs newDirective in
  let d' := runFrame (Fin 1010) d in
  0 ∈ stack d ∧ contextOf d 0 = Some c
  ∧ state c = leaving ∧ startTime c = Some (Fin 10)
  ∧ leave (timings c) = Fin 1000 ∧ (0 < 1000)%Q ∧ (10 + 1000 <= 1010)%Q
  ∧ (0 ∉ stack d') ∧ (0 ∉ viewContainer d') ∧ 0 ∈ destroyedViews d'.
Proof.
  intros evs c d d'.
  assert (Hr : 0 ∈ stack d) by (vm_compute; left).
  assert (Hc : contextOf d 0 = Some c) by (vm_compute; reflexivity).
  assert (Hst : state c = leaving) by reflexivity.
  assert (Ht : startTime c = Some (Fin 10)) by reflexivity.
  assert (Elv : leave (timings c) = Fin 1000) by reflexivity.
  assert (Hlv : (0 < 1000)%Q) by reflexivity.
  assert (Hq : (10 + 1000 <= 1010)%Q) by discriminate.
  split; [exact Hr|]. split; [exact Hc|]. split; [exact Hst|].
  split; [exact Ht|]. split; [exact Elv|]. split; [exact Hlv|].
  split; [exact Hq|].
  exact (proj2 (leaving_completes evs 0 c 10 1000 1010
                  Hr Hc Hst Ht Elv Hlv Hq)).
Defined.

(** The first entry of a directive with a window. *)
Lemma new_entry_with_window_witness :
  let evs := [Init (Document true)] in
  let d := run evs newDirective in
  let d1 := animateBy (Some 7) d in
  window d = true
  ∧ (∀ r c, current d = Some r → contextOf d r = Some c → implicit c ≠ 7)
  ∧ stack d1 = stack d ++ [nextRef d]
  ∧ current d1 = Some (nextRef d)
  ∧ frameQueue d1 ≠ [].
Proof.
  intros evs d d1.
  assert (Hw : window d = true) by reflexivity.
  assert (Hx : ∀ r c, current d = Some r → contextOf d r = Some c →
                      implicit c ≠ 7).
  { intros r c Hcur. discriminate Hcur. }
  split; [exact Hw|]. split; [exact Hx|].
  destruct (new_entry_with_window evs 7 Hw Hx) as (Hs & _ & Hcur & _ & Hq).
  split; [exact Hs|]. split; [exact Hcur|exact Hq].
Defined.

(** Removing the older of two entries. *)
Lemma removeStackEntry_removes_it_witness :
  let d :=
    run [Init (Document true); SetAnimateBy (Some 7); SetAnimateBy (Some 8)]
      newDirective in
  NoDup (stack d) ∧ viewContainer d = stack d ∧ 0 ∈ stack d
  ∧ stack (removeStackEntry 0 d) = [1]
  ∧ destroyedViews (removeStackEntry 0 d) = [0].
Proof.
  intros d.
  assert (Hs : stack d = [0; 1]) by (vm_compute; reflexivity).
  assert (Hnd : NoDup (stack d)).
  { rewrite Hs. apply (bool_decide_unpack _). vm_compute. exact I. }
  assert (Hv : viewContainer d = stack d) by (vm_compute; reflexivity).
  assert (Hr : 0 ∈ stack d) by (rewrite Hs; left).
  split; [exact Hnd|]. split; [exact Hv|]. split; [exact Hr|].
  destruct (removeStackEntry_removes_it d 0 Hnd Hv Hr)
    as (Hs' & _ & Hd' & _).
  split.
  - rewrite Hs', Hs. reflexivity.
  - rewrite Hd'. reflexivity.
Defined.

(** An entry that is not in the stack [[0]]: the entry [0] is removed. *)
Lemma removeStackEntry_absent_removes_last_witness :
  let d := run [SetAnimateBy (Some 7)] newDirective in
  (5 ∉ stack d)
  ∧ indexOf 5 (stack d) = (-1)%Z
  ∧ stack d = [0]
  ∧ stack (removeStackEntry 5 d) = [].
Proof.
  intros d.
  assert (Hs : stack d = [0]) by (vm_compute; reflexivity).
  assert (Hr : 5 ∉ stack d).
  { rewrite Hs. intros H. apply list_elem_of_singleton in H. discriminate H. }
  split; [exact Hr|].
  destruct (removeStackEntry_absent_removes_last d 5 Hr) as [Hi Hl].
  split; [exact Hi|]. split; [exact Hs|].
  rewrite Hl, Hs. reflexivity.
Defined.

(** A directive destroyed while its first entry is entering: later inputs
    and frames request and run nothing. *)
Lemma destroyed_stays_quiet_witness :
  let evs := [Init (Document true); SetAnimateBy (Some 7)] in
  let evs' := [SetAnimateBy (Some 8); SetAnimateBy None; Frame (Fin 5)] in
  let d := run evs newDirective in
  let d' := run evs' (ngOnDestroy d) in
  animId d ≠ None
  ∧ frameQueue d' = []
  ∧ lastFrameId d' = lastFrameId d
  ∧ markedForCheck d' = markedForCheck d.
Proof.
  intros evs evs' d d'.
  assert (Ha : animId d ≠ None) by (vm_compute; discriminate).
  split; [exact Ha|].
  exact (proj1 (destroyed_stays_quiet evs evs') Ha).
Defined.

End FurtherInstances.
